(** * The Todo state model (models/todo-model.js)

    A shallow embedding of the [TodoModel] class: the list of todo items,
    the identifier counter, the subscribed listeners, and the two effects
    every mutation has, writing through the storage service and calling
    the listeners.  Each method is a function from the state before the
    call to the outcome of the call. *)

From Stdlib Require Import ZArith NArith Lia.
From stdpp Require Import base option list sorting gmap strings.

Open Scope Z_scope.

(** ** JavaScript values and strings *)

(** A JavaScript string is a sequence of UTF-16 code units. *)
Abbreviation code_unit := N (only parsing).
Abbreviation jsstring := (list N) (only parsing).

(** The code units of an ASCII literal, to write examples. *)
Fixpoint js (s : string) : jsstring :=
  match s with
  | EmptyString => []
  | String a r => Ascii.N_of_ascii a :: js r
  end.

(** The values a caller can hand to a method.  Numbers are the
    integers: the identifiers the model issues are counted up by one
    from the stored counter, which is exact in a JavaScript number as
    long as the counter stays a safe integer.  A number that is not an
    integer acts like a non-zero one where a text is expected and equals
    no identifier; objects are not represented. *)
Inductive value :=
  | VUndefined
  | VNull
  | VBool (b : bool)
  | VNum (n : Z)
  | VStr (s : jsstring).

#[global] Instance value_eq_dec : EqDecision value.
Proof. solve_decision. Defined.

(** ToBoolean: [undefined], [null], [false], [0] and [''] are falsy. *)
Definition truthy (v : value) : bool :=
  match v with
  | VUndefined | VNull => false
  | VBool b => b
  | VNum n => negb (n =? 0)
  | VStr s => negb (bool_decide (s = []))
  end.

(** WhiteSpace and LineTerminator of ECMAScript, the code units
    [String.prototype.trim] strips. *)
Definition is_white_space (c : code_unit) : bool :=
  ((c =? 0x0009) || (c =? 0x000A) || (c =? 0x000B) || (c =? 0x000C) ||
   (c =? 0x000D) || (c =? 0x0020) || (c =? 0x00A0) || (c =? 0x1680) ||
   ((0x2000 <=? c) && (c <=? 0x200A)) ||
   (c =? 0x2028) || (c =? 0x2029) || (c =? 0x202F) || (c =? 0x205F) ||
   (c =? 0x3000) || (c =? 0xFEFF))%N.

Fixpoint trimStart (s : jsstring) : jsstring :=
  match s with
  | [] => []
  | c :: r => if is_white_space c then trimStart r else s
  end.

Definition trimEnd (s : jsstring) : jsstring :=
  reverse (trimStart (reverse s)).

Definition trim (s : jsstring) : jsstring := trimEnd (trimStart s).

Inductive error := TypeError.

(** [v.trim()] for a value [v] that is neither [undefined] nor [null]:
    a string has the method; a boolean or a number has no property
    [trim], and calling [undefined] raises a TypeError.  Reading a
    property of [undefined] or [null] raises a TypeError as well. *)
Definition call_trim (v : value) : error + jsstring :=
  match v with
  | VStr s => inr (trim s)
  | _ => inl TypeError
  end.

(** ** The data model *)

(** One todo item, as [addTodo] builds it. *)
Record Todo := {
  id : Z;
  text : jsstring;
  completed : bool;
  createdAt : jsstring
}.

#[global] Instance Todo_eq_dec : EqDecision Todo.
Proof. solve_decision. Defined.

(** What the model hands to [storage.save]: the list under ['items'],
    the counter under ['nextId']. *)
Inductive stored :=
  | SItems (l : list Todo)
  | SNum (n : Z).

(** A listener is a callback; the model only ever calls it, so it is
    represented by a name. *)
Abbreviation listener := nat (only parsing).

(** The effects of a call that are visible outside the model, in the
    order they happen. *)
Inductive event :=
  | Saved (key : string) (d : stored)
  | Called (l : listener).

(** The fields of a [TodoModel], the contents of the storage service it
    holds, and the effects so far. *)
Record State := {
  todos : list Todo;
  listeners : list listener;
  nextId : Z;
  storage : gmap string stored;
  trace : list event
}.

(** The outcome of a call: it returns, or an exception leaves it; either
    way with the state it left behind. *)
Inductive outcome :=
  | Returned (s : State)
  | Thrown (e : error) (s : State).

Definition state_of (o : outcome) : State :=
  match o with
  | Returned s => s
  | Thrown _ s => s
  end.

Definition set_todos (l : list Todo) (s : State) : State :=
  {| todos := l; listeners := listeners s; nextId := nextId s;
     storage := storage s; trace := trace s |}.

Definition set_nextId (n : Z) (s : State) : State :=
  {| todos := todos s; listeners := listeners s; nextId := n;
     storage := storage s; trace := trace s |}.

(** ** The storage service, as the model uses it *)

(** [storage.save(key, data)] replaces what is under the key; the
    service catches its own failures, so the call returns. *)
Definition storage_save (key : string) (d : stored) (s : State) : State :=
  {| todos := todos s; listeners := listeners s; nextId := nextId s;
     storage := <[key := d]> (storage s);
     trace := trace s ++ [Saved key d] |}.

Definition storage_load (key : string) (st : gmap string stored) : option stored :=
  st !! key.

(** ** The methods of TodoModel *)

(** [new TodoModel(storage)]: items default to the empty list, the
    counter to 1.  The source keeps whatever was stored as it is; a
    stored value of the wrong shape has no counterpart in [State], and
    the constructor is undefined there. *)
Definition TodoModel (st : gmap string stored) : option State :=
  match storage_load "items" st, storage_load "nextId" st with
  | Some (SNum _), _ | _, Some (SItems _) => None
  | it, nx =>
      Some {| todos := match it with Some (SItems l) => l | _ => [] end;
              listeners := [];
              nextId := match nx with Some (SNum n) => n | _ => 1 end;
              storage := st;
              trace := [] |}
  end.

Definition subscribe (l : listener) (s : State) : State :=
  {| todos := todos s; listeners := listeners s ++ [l]; nextId := nextId s;
     storage := storage s; trace := trace s |}.

(** [listeners.forEach(listener => listener())]: the listeners are
    called in the order they subscribed.  A listener is taken to return;
    what it does is its own. *)
Definition notify (s : State) : State :=
  {| todos := todos s; listeners := listeners s; nextId := nextId s;
     storage := storage s;
     trace := trace s ++ (Called <$> listeners s) |}.

Definition save (s : State) : State :=
  storage_save "nextId" (SNum (nextId s))
    (storage_save "items" (SItems (todos s)) s).

(** [t.id === id]: the stored identifier is a number, so strict equality
    holds exactly for the same number. *)
Definition has_id (idv : value) (t : Todo) : Prop := VNum (id t) = idv.

#[global] Instance has_id_dec idv t : Decision (has_id idv t).
Proof. unfold has_id. apply _. Defined.

Definition addTodo (txt : value) (now : jsstring) (s : State) : outcome :=
  if negb (truthy txt) then Returned s
  else match call_trim txt with
       | inl e => Thrown e s
       | inr trimmed =>
           if bool_decide (trimmed = []) then Returned s
           else
             let todo := {| id := nextId s; text := trimmed;
                            completed := false; createdAt := now |} in
             Returned (notify (save
               (set_todos (todos s ++ [todo]) (set_nextId (nextId s + 1) s))))
       end.

Definition toggle (t : Todo) : Todo :=
  {| id := id t; text := text t; completed := negb (completed t);
     createdAt := createdAt t |}.

Definition set_text (trimmed : jsstring) (t : Todo) : Todo :=
  {| id := id t; text := trimmed; completed := completed t;
     createdAt := createdAt t |}.

(** [find] gives the first item with the identifier; the assignment to
    its field changes the list in place, at the position found. *)
Definition toggleComplete (idv : value) (s : State) : outcome :=
  match list_find (has_id idv) (todos s) with
  | Some (i, todo) =>
      Returned (notify (save (set_todos (<[i := toggle todo]> (todos s)) s)))
  | None => Returned s
  end.

Definition deleteTodo (idv : value) (s : State) : outcome :=
  Returned (notify (save
    (set_todos (filter (λ t, ¬ has_id idv t) (todos s)) s))).

Definition updateTodo (idv newText : value) (s : State) : outcome :=
  match list_find (has_id idv) (todos s) with
  | Some (i, todo) =>
      if negb (truthy newText) then Returned s
      else match call_trim newText with
           | inl e => Thrown e s
           | inr trimmed =>
               if bool_decide (trimmed = []) then Returned s
               else Returned (notify (save
                      (set_todos (<[i := set_text trimmed todo]> (todos s)) s)))
           end
  | None => Returned s
  end.

Definition clearCompleted (s : State) : outcome :=
  Returned (notify (save
    (set_todos (filter (λ t, completed t = false) (todos s)) s))).

Definition clearAll (s : State) : outcome :=
  Returned (notify (save (set_todos [] s))).

Definition activeCount (s : State) : nat :=
  length (filter (λ t, completed t = false) (todos s)).

Definition completedCount (s : State) : nat :=
  length (filter (λ t, completed t = true) (todos s)).

(** ** Sequences of calls *)

(** One call on the model.  [addTodo] reads the clock for [createdAt];
    the reading is part of the call. *)
Inductive op :=
  | Subscribe (l : listener)
  | AddTodo (txt : value) (now : jsstring)
  | ToggleComplete (idv : value)
  | DeleteTodo (idv : value)
  | UpdateTodo (idv newText : value)
  | ClearCompleted
  | ClearAll.

Definition step (o : op) (s : State) : outcome :=
  match o with
  | Subscribe l => Returned (subscribe l s)
  | AddTodo txt now => addTodo txt now s
  | ToggleComplete idv => toggleComplete idv s
  | DeleteTodo idv => deleteTodo idv s
  | UpdateTodo idv newText => updateTodo idv newText s
  | ClearCompleted => clearCompleted s
  | ClearAll => clearAll s
  end.

(** The calls are made one after the other on the same object; a call
    that throws leaves the object as it was at the throw, and the next
    call goes on from there. *)
Fixpoint run (ops : list op) (s : State) : State :=
  match ops with
  | [] => s
  | o :: r => run r (state_of (step o s))
  end.

(** The identifier a call issues: [id: this.nextId++] is the only write
    to the counter, so a call issues an identifier exactly when it moves
    the counter, and the identifier is the value the counter had. *)
Definition issued_by (o : op) (s : State) : list Z :=
  if decide (nextId (state_of (step o s)) = nextId s) then [] else [nextId s].

Fixpoint issued (ops : list op) (s : State) : list Z :=
  match ops with
  | [] => []
  | o :: r => issued_by o s ++ issued r (state_of (step o s))
  end.

(** The effects of a mutation that went through: both keys saved, then
    every listener called, in the order of subscription. *)
Definition effects (s : State) : list event :=
  [Saved "items" (SItems (todos s)); Saved "nextId" (SNum (nextId s))]
  ++ (Called <$> listeners s).

(** ** Inputs the methods are written for *)




(** ** Stores to start from *)

(** The store [new TodoModel] builds on empty storage. *)
Definition fresh : State :=
  {| todos := []; listeners := []; nextId := 1; storage := ∅; trace := [] |}.


(** The store of scenario A: one call of [addTodo] on a fresh store. *)
Definition buy_milk : State :=
  run [AddTodo (VStr (js "Buy milk")) (js "t0")] fresh.

(** ** The invariant of the store *)

(** Identifiers are pairwise distinct and all below the counter. *)
Definition wf (s : State) : Prop :=
  NoDup (id <$> todos s) ∧ Forall (λ t, id t < nextId s) (todos s).

(** ** The storage service (services/storage-service.js) *)

Module StorageService.
Section service.

(** The browser's side of the service: [JSON.stringify] and
    [JSON.parse] ([None] where they throw), and whether
    [localStorage.setItem] takes the write ([false] where it throws, the
    quota being exceeded).  [localStorage] is a map from keys to texts.
    What the service prints on the console is not part of the model. *)
Context {D : Type}.
Variable stringify : D → option string.
Variable parse : string → option D.
Variable accepts : gmap string string → string → string → bool.

(** [new StorageService(storageKey)]. *)
Variable storageKey : string.

(** The template literal [`${this.storageKey}_${k}`]. *)
Definition full_key (k : string) : string := storageKey +:+ "_" +:+ k.

(** [save(k, d)]: whatever is thrown inside is caught, and then nothing
    was written. *)
Definition save (k : string) (d : D) (ls : gmap string string)
    : gmap string string :=
  let fk := full_key k in
  match stringify d with
  | Some v => if accepts ls fk v then <[fk := v]> ls else ls
  | None => ls
  end.

(** [load(key, defaultValue)]: [getItem] gives [null] for a missing key;
    [null] and the empty text are falsy; a text that does not parse
    throws, which is caught. *)
Definition load (key : string) (defaultValue : D) (ls : gmap string string) : D :=
  match ls !! full_key key with
  | Some item =>
      if bool_decide (item = "") then defaultValue
      else match parse item with
           | Some d => d
           | None => defaultValue
           end
  | None => defaultValue
  end.

Definition remove (k : string) (ls : gmap string string) : gmap string string :=
  delete (full_key k) ls.

(** [key && key.startsWith(this.storageKey)] *)
Definition to_remove (key : string) : bool :=
  negb (bool_decide (key = "")) && String.prefix storageKey key.

(** [clear()]: the keys are collected first, in the order
    [localStorage.key(i)] gives them, and removed afterwards. *)
Definition clear (ls : gmap string string) : gmap string string :=
  let keysToRemove := filter (λ key, to_remove key = true) (map_to_list ls).*1 in
  foldl (λ m key, delete key m) ls keysToRemove.

(** What [load] finds under a key before it falls back on the default. *)
Definition read (key : string) (ls : gmap string string) : option D :=
  match ls !! full_key key with
  | Some item => if bool_decide (item = "") then None else parse item
  | None => None
  end.

End service.
End StorageService.

(** The service as a map from the keys of its callers to data: [st]
    holds under every key what the service would read there. *)
Definition agree {D} (parse : string → option D) (storageKey : string)
    (ls : gmap string string) (st : gmap string D) : Prop :=
  ∀ k, st !! k = StorageService.read parse storageKey k ls.

(** [TodoModel.save()] with a [StorageService] as [this.storage]: the
    two calls of [storage.save], on the [localStorage] behind it. *)
Definition save_through (stringify : stored → option string)
    (accepts : gmap string string → string → string → bool)
    (storageKey : string) (s : State) (ls : gmap string string)
    : gmap string string :=
  StorageService.save stringify accepts storageKey "nextId" (SNum (nextId s))
    (StorageService.save stringify accepts storageKey "items"
       (SItems (todos s)) ls).

(** ** Browsers to try the service with *)

(** [JSON.stringify] and [JSON.parse] on the booleans. *)
Definition stringify_bool (b : bool) : option string :=
  Some (if b then "true" else "false").

Definition parse_bool (v : string) : option bool :=
  if bool_decide (v = "true") then Some true
  else if bool_decide (v = "false") then Some false
  else None.

(** [JSON.stringify] on what a fresh model saves, the empty list and the
    counter at 1, and [JSON.parse] on the two texts. *)
Definition stringify_fresh (d : stored) : option string :=
  match d with
  | SItems [] => Some "[]"
  | SNum 1 => Some "1"
  | _ => None
  end.

Definition parse_fresh (v : string) : option stored :=
  if bool_decide (v = "[]") then Some (SItems [])
  else if bool_decide (v = "1") then Some (SNum 1)
  else None.

(** A [localStorage] with room for every write. *)
Definition roomy (ls : gmap string string) (key v : string) : bool := true.

(** ** What a call can do to the store *)

(** A call is quiet (list, counter, storage and trace as before) or it
    is loud: both keys saved with the values the state ends with, then
    every listener called. *)
Definition quiet (s s' : State) : Prop :=
  todos s' = todos s ∧ nextId s' = nextId s ∧
  storage s' = storage s ∧ trace s' = trace s.

Definition loud (s s' : State) : Prop :=
  storage s' = <["nextId" := SNum (nextId s')]>
                 (<["items" := SItems (todos s')]> (storage s)) ∧
  trace s' = trace s ++ effects s' ∧
  listeners s' = listeners s.

(** ** The form (components/todo-form.js) *)

Module TodoForm.

(** The state of the component: the text in the field; with the
    microphone, whether the browser has speech recognition
    ([this.recognition] is not [null]) and whether it is listening. *)
Record Form := {
  inputValue : jsstring;
  recognition : bool;
  listening : bool
}.

Definition set_inputValue (v : jsstring) (f : Form) : Form :=
  {| inputValue := v; recognition := recognition f; listening := listening f |}.

Definition set_listening (b : bool) (f : Form) : Form :=
  {| inputValue := inputValue f; recognition := recognition f; listening := b |}.

(** [handleSubmit]: the text of the [add-todo] event dispatched, if one
    is, and the state afterwards. *)
Definition handleSubmit (f : Form) : option jsstring * Form :=
  let text := trim (inputValue f) in
  if bool_decide (text = []) then (None, f)
  else (Some text, set_inputValue [] f).

Definition handleInput (v : jsstring) (f : Form) : Form := set_inputValue v f.

(** The [result] and [end] listeners [firstUpdated] installs. *)
Definition on_result (transcript : jsstring) (f : Form) : Form :=
  set_inputValue (trim transcript) f.

Definition on_end (f : Form) : Form := set_listening false f.

Definition handleMicClick (f : Form) : Form :=
  if negb (recognition f) then f
  else if listening f then set_listening false f
  else set_listening true f.

(** [?disabled=${!this.inputValue.trim()}] on the Add button. *)
Definition add_disabled (f : Form) : bool :=
  bool_decide (trim (inputValue f) = []).

End TodoForm.

(** ** One item of the list (components/todo-item.js) *)

Module TodoItem.

Record Item := {
  todo : Todo;
  isEditing : bool;
  editValue : jsstring
}.

Definition handleEdit (it : Item) : Item :=
  {| todo := todo it; isEditing := true; editValue := text (todo it) |}.

(** [handleSave]: the detail of the [update-todo] event dispatched, if
    one is: the identifier and the text as typed, not trimmed. *)
Definition handleSave (it : Item) : option (Z * jsstring) * Item :=
  if bool_decide (trim (editValue it) = []) then (None, it)
  else (Some (id (todo it), editValue it),
        {| todo := todo it; isEditing := false; editValue := editValue it |}).

Definition handleCancel (it : Item) : Item :=
  {| todo := todo it; isEditing := false; editValue := [] |}.

Definition handleKeyDown (key : string) (it : Item)
    : option (Z * jsstring) * Item :=
  if bool_decide (key = "Enter") then handleSave it
  else if bool_decide (key = "Escape") then (None, handleCancel it)
  else (None, it).

(** [handleToggle] and [handleDelete]: the identifier dispatched;
    [handleDelete] asks [confirm] first. *)
Definition handleToggle (it : Item) : Z := id (todo it).

Definition handleDelete (confirmed : bool) (it : Item) : option Z :=
  if confirmed then Some (id (todo it)) else None.

End TodoItem.

(** ** The application (components/todo-app.js) *)

Module TodoApp.

Local Abbreviation model_todos := todos (only parsing).

(** The component holds the model and a copy of its list, [this.todos],
    which is what it shows.  The copy is of the array, not of the items;
    the model changes an item in place only in calls that notify, and
    the copy is taken anew there, so the copy is represented by the
    items as they were when it was taken. *)
Record App := {
  model : State;
  todos : list Todo
}.

(** The name of the listener the constructor subscribes. *)
Definition app_listener : nat := 0.

(** [constructor()]: a model on the storage, its list copied, and the
    listener subscribed. *)
Definition constructor (st : gmap string stored) : option App :=
  match TodoModel st with
  | Some m => Some {| model := subscribe app_listener m;
                      todos := model_todos m |}
  | None => None
  end.

(** The listener is [() => { this.todos = [...this.model.todos]; }].
    The model calls it at the end of a method, so what it copies is the
    list the method leaves.  [deliver] runs it once for every call of it
    the trace has gained between two states of the model. *)
Definition deliver (before after : State) (shown : list Todo) : list Todo :=
  foldl (λ shown e,
           match e with
           | Called l =>
               if bool_decide (l = app_listener) then model_todos after
               else shown
           | Saved _ _ => shown
           end)
        shown (drop (length (trace before)) (trace after)).

(** A handler that calls one method of the model.  When the method
    throws, so does the handler, and the component stays as the method
    left it. *)
Definition on_model (f : State → outcome) (a : App) : App :=
  let m := state_of (f (model a)) in
  {| model := m; todos := deliver (model a) m (todos a) |}.

Definition handleAddTodo (txt : value) (now : jsstring) : App → App :=
  on_model (addTodo txt now).

Definition handleToggleTodo (idv : value) (a : App) : App :=
  let a' := on_model (toggleComplete idv) a in
  {| model := model a'; todos := model_todos (model a') |}.

Definition handleDeleteTodo (idv : value) : App → App :=
  on_model (deleteTodo idv).

Definition handleUpdateTodo (idv txt : value) : App → App :=
  on_model (updateTodo idv txt).

(** [confirm(...)] is the answer of the user. *)
Definition handleClearCompleted (confirmed : bool) (a : App) : App :=
  if confirmed then on_model clearCompleted a else a.

Definition handleClearAll (confirmed : bool) (a : App) : App :=
  if confirmed then on_model clearAll a else a.

(** What [render] shows: the three numbers, and the two buttons. *)
Definition total (a : App) : nat := length (todos a).
Definition active (a : App) : nat := activeCount (model a).
Definition completed_count (a : App) : nat := completedCount (model a).

Definition clear_completed_disabled (a : App) : bool :=
  bool_decide (completedCount (model a) = 0%nat).

Definition clear_all_disabled (a : App) : bool :=
  bool_decide (length (todos a) = 0%nat).

(** The events the component handles. *)
Inductive event :=
  | AddTodoEvent (txt : value) (now : jsstring)
  | ToggleTodoEvent (idv : value)
  | DeleteTodoEvent (idv : value)
  | UpdateTodoEvent (idv txt : value)
  | ClearCompletedClick (confirmed : bool)
  | ClearAllClick (confirmed : bool).

Definition handle (e : event) (a : App) : App :=
  match e with
  | AddTodoEvent txt now => handleAddTodo txt now a
  | ToggleTodoEvent idv => handleToggleTodo idv a
  | DeleteTodoEvent idv => handleDeleteTodo idv a
  | UpdateTodoEvent idv txt => handleUpdateTodo idv txt a
  | ClearCompletedClick confirmed => handleClearCompleted confirmed a
  | ClearAllClick confirmed => handleClearAll confirmed a
  end.

Fixpoint handle_all (es : list event) (a : App) : App :=
  match es with
  | [] => a
  | e :: r => handle_all r (handle e a)
  end.

End TodoApp.

(** The application shows the list of the model, and its listener is the
    one subscribed. *)
Definition in_step (a : TodoApp.App) : Prop :=
  TodoApp.todos a = todos (TodoApp.model a) ∧
  listeners (TodoApp.model a) = [TodoApp.app_listener].

(** The application on empty storage. *)
Definition fresh_app : TodoApp.App :=
  {| TodoApp.model := subscribe TodoApp.app_listener fresh;
     TodoApp.todos := [] |}.

(** An item component showing the one item of [buy_milk]. *)
Definition milk_item (typed : jsstring) : TodoItem.Item :=
  {| TodoItem.todo := {| id := 1; text := js "Buy milk"; completed := false;
                         createdAt := js "t0" |};
     TodoItem.isEditing := true;
     TodoItem.editValue := typed |}.

(** ** The identifiers given to items *)

(** The items a call puts at the end of the list: what the list has
    beyond its length before the call. *)
Definition appended (o : op) (s : State) : list Todo :=
  drop (length (todos s)) (todos (state_of (step o s))).

(** The identifiers of the items appended along a run, read off the
    items, in the order they were appended. *)
Fixpoint given (ops : list op) (s : State) : list Z :=
  match ops with
  | [] => []
  | o :: r => (id <$> appended o s) ++ given r (state_of (step o s))
  end.

(** ** The model on the storage service *)

(** The model with a [StorageService] as [this.storage]: the calls of
    [storage.save] a method makes, read off the trace in their order,
    go through the service to the [localStorage] behind it. *)
Definition write_through (stringify : stored → option string)
    (accepts : gmap string string → string → string → bool)
    (storageKey : string) (before after : State)
    (ls : gmap string string) : gmap string string :=
  foldl (λ ls e,
           match e with
           | Saved key d =>
               StorageService.save stringify accepts storageKey key d ls
           | Called _ => ls
           end)
        ls (drop (length (trace before)) (trace after)).

(** One call on the model, and what it does to the [localStorage]. *)
Definition step_on (stringify : stored → option string)
    (accepts : gmap string string → string → string → bool)
    (storageKey : string) (o : op) (w : State * gmap string string)
    : State * gmap string string :=
  let s' := state_of (step o w.1) in
  (s', write_through stringify accepts storageKey w.1 s' w.2).

Fixpoint run_on (stringify : stored → option string)
    (accepts : gmap string string → string → string → bool)
    (storageKey : string) (ops : list op) (w : State * gmap string string)
    : State * gmap string string :=
  match ops with
  | [] => w
  | o :: r =>
      run_on stringify accepts storageKey r
        (step_on stringify accepts storageKey o w)
  end.

(** [new TodoModel(storage)] on the service: the list and the counter
    the model starts with, [load('items', [])] and [load('nextId', 1)];
    [None] where what is loaded is not a list and a number. *)
Definition TodoModel_on (parse : string → option stored)
    (storageKey : string) (ls : gmap string string) : option (list Todo * Z) :=
  match StorageService.load parse storageKey "items" (SItems []) ls,
        StorageService.load parse storageKey "nextId" (SNum 1) ls with
  | SItems l, SNum n => Some (l, n)
  | _, _ => None
  end.

(** A stand-in for [JSON.stringify] and [JSON.parse] that covers every
    datum: the datum is numbered and the number written in binary
    digits.  All the properties ask of the two is that [parse] gives
    back what [stringify] wrote. *)
#[global] Instance Todo_countable : Countable Todo :=
  inj_countable' (λ t, (id t, text t, completed t, createdAt t))
                 (λ q, {| id := q.1.1.1; text := q.1.1.2;
                          completed := q.1.2; createdAt := q.2 |})
                 (λ t, match t with Build_Todo _ _ _ _ => eq_refl end).

#[global] Instance stored_eq_dec : EqDecision stored.
Proof. solve_decision. Defined.

#[global] Instance stored_countable : Countable stored :=
  inj_countable' (λ d, match d with SItems l => inl l | SNum n => inr n end)
                 (λ x, match x with inl l => SItems l | inr n => SNum n end)
                 (λ d, match d with SItems _ => eq_refl | SNum _ => eq_refl end).

Fixpoint digits (p : positive) : string :=
  match p with
  | xH => "."
  | xO q => "0" +:+ digits q
  | xI q => "1" +:+ digits q
  end.

Fixpoint number (v : string) : option positive :=
  match v with
  | EmptyString => None
  | String a r =>
      if bool_decide (String a "" = "0") then xO <$> number r
      else if bool_decide (String a "" = "1") then xI <$> number r
      else Some xH
  end.

Definition stringify_digits (d : stored) : option string :=
  Some (digits (encode d)).

Definition parse_digits (v : string) : option stored :=
  match number v with
  | Some p => decode p
  | None => None
  end.

(** ** Texts the model keeps *)

Definition white (s : jsstring) : Prop :=
  Forall (λ c, is_white_space c = true) s.

(** A text as [addTodo] and [updateTodo] store it: not empty, and
    trimming it changes nothing. *)
Definition text_ok (t : Todo) : Prop :=
  text t ≠ [] ∧ trim (text t) = text t.

(** * Scenarios of the unit tests *)

Example construct_empty : TodoModel ∅ = Some fresh.
Proof. reflexivity. Qed.

Example scenario_A :
  todos buy_milk =
    [{| id := 1; text := js "Buy milk"; completed := false;
        createdAt := js "t0" |}].
Proof. reflexivity. Qed.

Example scenario_empty_text :
  todos (run [AddTodo (VStr (js "")) (js "t0");
              AddTodo (VStr (js "   ")) (js "t1")] fresh) = [].
Proof. reflexivity. Qed.

Example scenario_B :
  completed <$> todos (run [AddTodo (VStr (js "Task")) (js "t0");
                            ToggleComplete (VNum 1)] fresh) = [true] ∧
  completed <$> todos (run [AddTodo (VStr (js "Task")) (js "t0");
                            ToggleComplete (VNum 1);
                            ToggleComplete (VNum 1)] fresh) = [false].
Proof. split; reflexivity. Qed.

Example scenario_D :
  id <$> todos (run [AddTodo (VStr (js "A")) (js "t0");
                     AddTodo (VStr (js "B")) (js "t1");
                     DeleteTodo (VNum 1)] fresh) = [2].
Proof. reflexivity. Qed.

Example scenario_C :
  text <$> todos (run [AddTodo (VStr (js "Task 1")) (js "t0");
                       AddTodo (VStr (js "Task 2")) (js "t1");
                       ToggleComplete (VNum 1);
                       ClearCompleted] fresh) = [js "Task 2"].
Proof. reflexivity. Qed.

Example scenario_E :
  text <$> todos (run [AddTodo (VStr (js "Old")) (js "t0");
                       UpdateTodo (VNum 1) (VStr (js "New"));
                       UpdateTodo (VNum 1) (VStr (js "   "))] fresh)
  = [js "New"].
Proof. reflexivity. Qed.

(** * Properties *)

(** ** Reading the state after the effects *)

Lemma trace_effects s : trace (notify (save s)) = trace s ++ effects s.
Proof.
  unfold notify, save, storage_save, effects; simpl.
  by rewrite <- !app_assoc.
Qed.

(** ** Filtering *)

Lemma filter_all {A} (P : A → Prop) `{!∀ x, Decision (P x)} (l : list A) :
  Forall P l → filter P l = l.
Proof.
  induction 1 as [| x l Hx _ IH]; [done |].
  by rewrite filter_cons_True, IH.
Qed.

(** ** Finding an item by identifier *)

Section find_by_id.
Context (idv : value).
Implicit Types (l : list Todo) (t : Todo).

(** The item [find] returns splits the list: nothing before it has the
    identifier. *)
Lemma find_split l i t :
  list_find (has_id idv) l = Some (i, t) →
  ∃ l1 l2, l = l1 ++ t :: l2 ∧ length l1 = i ∧ has_id idv t ∧
           Forall (λ u, ¬ has_id idv u) l1.
Proof.
  intros (Hi & Ht & Hbefore)%list_find_Some.
  exists (take i l), (drop (S i) l).
  pose proof (lookup_lt_Some _ _ _ Hi) as Hlt.
  split_and!.
  - by rewrite <- (take_drop_middle _ _ _ Hi) at 1.
  - rewrite length_take. lia.
  - done.
  - apply Forall_forall. intros u Hu.
    apply list_elem_of_lookup in Hu as [j Hj].
    pose proof (lookup_lt_Some _ _ _ Hj) as Hjlt.
    rewrite length_take in Hjlt.
    rewrite lookup_take_lt in Hj by lia.
    eapply Hbefore; [done | lia].
Qed.

Lemma find_present l :
  (∃ t, t ∈ l ∧ has_id idv t) → is_Some (list_find (has_id idv) l).
Proof. intros (t & Hin & Ht). by eapply list_find_elem_of. Qed.

Lemma find_absent l :
  (¬ ∃ t, t ∈ l ∧ has_id idv t) → list_find (has_id idv) l = None.
Proof.
  intros Hno. apply list_find_None, Forall_forall.
  intros t Hin Ht. apply Hno. eauto.
Qed.

Lemma insert_split l1 l2 t t' :
  <[length l1 := t']> (l1 ++ t :: l2) = l1 ++ t' :: l2.
Proof.
  rewrite insert_app_r_alt by lia.
  by replace (length l1 - length l1)%nat with 0%nat by lia.
Qed.

(** Writing a field other than [id] of the item found leaves the
    identifiers of the list as they are. *)
Lemma ids_insert l i t t' :
  l !! i = Some t → id t' = id t → id <$> <[i := t']> l = id <$> l.
Proof.
  intros Hi Hid. rewrite list_fmap_insert, Hid.
  apply list_insert_id. by rewrite list_lookup_fmap, Hi.
Qed.
End find_by_id.

(** ** The invariant of the store *)


Lemma wf_filter (P : Todo → Prop) `{!∀ t, Decision (P t)} s :
  wf s → wf (notify (save (set_todos (filter P (todos s)) s))).
Proof.
  intros [Hnd Hlt]. split; simpl.
  - eapply sublist_NoDup; [exact Hnd |].
    apply fmap_sublist, sublist_filter.
  - apply Forall_forall. intros t [_ Hin]%list_elem_of_filter.
    by apply (proj1 (Forall_forall _ _) Hlt).
Qed.

Lemma wf_insert s i t t' :
  todos s !! i = Some t → id t' = id t →
  wf s → wf (notify (save (set_todos (<[i := t']> (todos s)) s))).
Proof.
  intros Hi Hid [Hnd Hlt]. split; simpl.
  - by rewrite (ids_insert _ _ _ _ Hi Hid).
  - apply Forall_insert; [done |]. rewrite Hid.
    by apply (proj1 (Forall_forall _ _) Hlt t), list_elem_of_lookup_2 with i.
Qed.

Lemma wf_addTodo txt now s : wf s → wf (state_of (addTodo txt now s)).
Proof.
  intros [Hnd Hlt]. unfold addTodo.
  destruct (truthy txt); simpl; [| done].
  destruct (call_trim txt) as [e | trimmed]; simpl; [done |].
  case_bool_decide; simpl; [done |].
  split; simpl.
  - rewrite fmap_app. apply NoDup_app. split_and!; [done | | apply NoDup_singleton].
    intros x Hx ->%list_elem_of_singleton.
    apply list_elem_of_fmap in Hx as (t & Hid & Hin).
    pose proof (proj1 (Forall_forall _ _) Hlt t Hin). simpl in *. lia.
  - apply Forall_app. split.
    + eapply Forall_impl; [exact Hlt |]. simpl. intros; lia.
    + apply Forall_singleton. simpl. lia.
Qed.

Lemma wf_step o s : wf s → wf (state_of (step o s)).
Proof.
  intros Hwf. destruct o; simpl.
  - exact Hwf.
  - by apply wf_addTodo.
  - unfold toggleComplete.
    destruct (list_find _ _) as [[i t] |] eqn:Hf; simpl; [| done].
    apply list_find_Some in Hf as (Hi & _).
    by eapply wf_insert.
  - by apply wf_filter.
  - unfold updateTodo.
    destruct (list_find _ _) as [[i t] |] eqn:Hf; simpl; [| done].
    apply list_find_Some in Hf as (Hi & _).
    destruct (truthy newText); simpl; [| done].
    destruct (call_trim newText); simpl; [done |].
    case_bool_decide; simpl; [done |].
    by eapply wf_insert.
  - by apply wf_filter.
  - split; simpl; [apply NoDup_nil_2 | apply Forall_nil_2].
Qed.

Lemma wf_run ops s : wf s → wf (run ops s).
Proof.
  revert s. induction ops as [| o r IH]; intros s Hwf; simpl; [done |].
  by apply IH, wf_step.
Qed.

Lemma wf_fresh : wf fresh.
Proof. split; simpl; [apply NoDup_nil_2 | apply Forall_nil_2]. Qed.

(** Every item is counted once: as active or as completed. *)
Lemma counts_total s :
  (activeCount s + completedCount s = length (todos s))%nat.
Proof.
  unfold activeCount, completedCount.
  induction (todos s) as [| t l IH]; [done |].
  rewrite !filter_cons.
  repeat case_decide; simpl; try lia; destruct (completed t); congruence.
Qed.

(** ** The counter and the identifiers issued *)

Lemma trim_nil : trim [] = [].
Proof. reflexivity. Qed.

Lemma trim_nonempty txt : trim txt ≠ [] → truthy (VStr txt) = true.
Proof.
  intros Hne. simpl. case_bool_decide as Hnil; [| done].
  subst txt. by rewrite trim_nil in Hne.
Qed.

(** A call moves the counter by one or leaves it. *)
Lemma nextId_step o s :
  nextId (state_of (step o s)) = nextId s ∨
  nextId (state_of (step o s)) = nextId s + 1.
Proof.
  destruct o; simpl; try (by left).
  - unfold addTodo. destruct (truthy txt); simpl; [| by left].
    destruct (call_trim txt); simpl; [by left |].
    case_bool_decide; simpl; [by left | by right].
  - unfold toggleComplete. by destruct (list_find _ _) as [[??] |]; left.
  - unfold updateTodo. destruct (list_find _ _) as [[??] |]; [| by left].
    destruct (truthy newText); simpl; [| by left].
    destruct (call_trim newText); simpl; [by left |].
    by case_bool_decide; left.
Qed.

Lemma nextId_run ops s : nextId s ≤ nextId (run ops s).
Proof.
  revert s. induction ops as [| o r IH]; intros s; simpl; [lia |].
  specialize (IH (state_of (step o s))).
  destruct (nextId_step o s); lia.
Qed.

(** Every identifier issued along a run lies between the counter at the
    start and the counter at the end. *)
Lemma issued_bounds ops s :
  Forall (λ i, nextId s ≤ i < nextId (run ops s)) (issued ops s).
Proof.
  revert s. induction ops as [| o r IH]; intros s; simpl; [constructor |].
  apply Forall_app. split.
  - unfold issued_by. case_decide as Hmove; [constructor |].
    apply Forall_singleton.
    pose proof (nextId_run r (state_of (step o s))).
    destruct (nextId_step o s); [done | lia].
  - eapply Forall_impl; [apply IH |]. simpl. intros i Hi.
    destruct (nextId_step o s); lia.
Qed.

(** An accepted [addTodo] is a call that issues the counter's value. *)
Lemma issued_by_addTodo txt now s :
  trim txt ≠ [] → issued_by (AddTodo (VStr txt) now) s = [nextId s].
Proof.
  intros Hne. unfold issued_by; simpl. unfold addTodo.
  rewrite (trim_nonempty _ Hne); simpl.
  rewrite bool_decide_eq_false_2 by done; simpl.
  rewrite decide_False by lia. done.
Qed.

(** Every identifier in the list was there at the start or was issued
    since. *)
Lemma ids_step o s :
  id <$> todos (state_of (step o s)) ⊆ (id <$> todos s) ++ issued_by o s.
Proof.
  assert (Hfilter : ∀ (P : Todo → Prop) `{!∀ t, Decision (P t)} k,
            id <$> filter P (todos s) ⊆ (id <$> todos s) ++ k).
  { intros P ? k x (t & -> & [_ Hin]%list_elem_of_filter)%list_elem_of_fmap.
    apply elem_of_app. left. by apply list_elem_of_fmap_2. }
  assert (Hsame : ∀ k, id <$> todos s ⊆ (id <$> todos s) ++ k).
  { intros k x Hx. apply elem_of_app. by left. }
  destruct o; simpl; try apply Hsame; try apply Hfilter.
  - unfold issued_by; simpl. unfold addTodo.
    destruct (truthy txt); simpl; [| apply Hsame].
    destruct (call_trim txt); simpl; [apply Hsame |].
    case_bool_decide; simpl; [apply Hsame |].
    rewrite decide_False by lia. by rewrite fmap_app.
  - unfold toggleComplete.
    destruct (list_find _ _) as [[i t] |] eqn:Hf; simpl; [| apply Hsame].
    apply list_find_Some in Hf as (Hi & _).
    rewrite (ids_insert _ _ _ (toggle t) Hi) by done. apply Hsame.
  - unfold updateTodo.
    destruct (list_find _ _) as [[i t] |] eqn:Hf; simpl; [| apply Hsame].
    apply list_find_Some in Hf as (Hi & _).
    destruct (truthy newText); simpl; [| apply Hsame].
    destruct (call_trim newText) as [e | trimmed]; simpl; [apply Hsame |].
    case_bool_decide; simpl; [apply Hsame |].
    rewrite (ids_insert _ _ _ (set_text trimmed t) Hi) by done. apply Hsame.
  - intros x Hx. by apply elem_of_nil in Hx.
Qed.

Lemma ids_run ops s :
  id <$> todos (run ops s) ⊆ (id <$> todos s) ++ issued ops s.
Proof.
  revert s. induction ops as [| o r IH]; intros s; simpl.
  - by rewrite app_nil_r.
  - intros x Hx. apply IH in Hx.
    apply elem_of_app in Hx as [Hx | Hx].
    + apply ids_step in Hx. rewrite app_assoc.
      apply elem_of_app. by left.
    + rewrite app_assoc. apply elem_of_app. by right.
Qed.

Lemma run_app ops1 ops2 s : run (ops1 ++ ops2) s = run ops2 (run ops1 s).
Proof.
  revert s. induction ops1 as [| o r IH]; intros s; simpl; [done | apply IH].
Qed.

Lemma issued_app ops1 ops2 s :
  issued (ops1 ++ ops2) s = issued ops1 s ++ issued ops2 (run ops1 s).
Proof.
  revert s. induction ops1 as [| o r IH]; intros s; simpl; [done |].
  by rewrite IH, app_assoc.
Qed.

(** ** Calling [trim] on a value *)



(** What a write at the position found does to the other positions. *)
Lemma insert_frame (f : Todo → Todo) (l : list Todo) i0 t0 i t :
  l !! i0 = Some t0 → l !! i = Some t →
  <[i0 := f t0]> l !! i = Some (if decide (i = i0) then f t else t).
Proof.
  intros H0 Hi. case_decide as Heq.
  - subst i0. rewrite list_lookup_insert_eq by by eapply lookup_lt_Some.
    congruence.
  - by rewrite list_lookup_insert_ne.
Qed.

(** * The claims *)

(** C1. Whatever calls are made on a store constructed from empty
    storage (no items, counter at 1), afterwards the active and the
    completed count add up to the number of items, no two items share an
    identifier, and the counter is above every identifier in the list. *)
Theorem store_invariant (ops : list op) (s0 : State) :
  TodoModel ∅ = Some s0 →
  let s := run ops s0 in
  (activeCount s + completedCount s = length (todos s))%nat ∧
  NoDup (id <$> todos s) ∧
  Forall (λ t, id t < nextId s) (todos s).
Proof.
  intros Hnew s. injection Hnew as <-.
  split; [apply counts_total |].
  apply (wf_run ops fresh wf_fresh).
Qed.

Lemma store_invariant_witness :
  TodoModel ∅ = Some fresh ∧
  let s := run [AddTodo (VStr (js "A")) (js "t0");
                AddTodo (VStr (js " B ")) (js "t1");
                AddTodo (VNum 7) (js "t2");
                ToggleComplete (VNum 1);
                UpdateTodo (VNum 2) (VStr (js "C"));
                DeleteTodo (VNum 1);
                ClearCompleted;
                AddTodo (VStr (js "D")) (js "t3")] fresh in
  (activeCount s + completedCount s = length (todos s))%nat ∧
  NoDup (id <$> todos s) ∧
  Forall (λ t, id t < nextId s) (todos s).
Proof.
  split; [reflexivity |].
  apply (store_invariant _ fresh). reflexivity.
Defined.

(** C2. For a string whose trim is not empty, [addTodo] returns with the
    list one longer: the old list followed by a new item whose text is
    the trimmed string, which is not completed, and whose identifier is
    the counter before the call; the counter is one higher after it.
    The call issues that identifier, and it is above every identifier
    issued by the calls made before, whatever they were. *)
Theorem addTodo_appends (s0 : State) (ops : list op) (txt now : jsstring) :
  trim txt ≠ [] →
  let s := run ops s0 in
  ∃ s', addTodo (VStr txt) now s = Returned s' ∧
        todos s' = todos s ++ [{| id := nextId s; text := trim txt;
                                  completed := false; createdAt := now |}] ∧
        length (todos s') = S (length (todos s)) ∧
        nextId s' = nextId s + 1 ∧
        issued (ops ++ [AddTodo (VStr txt) now]) s0
          = issued ops s0 ++ [nextId s] ∧
        Forall (λ i, i < nextId s) (issued ops s0).
Proof.
  intros Hne s. eexists. split_and!.
  - unfold addTodo. rewrite (trim_nonempty _ Hne); simpl.
    by rewrite bool_decide_eq_false_2 by done.
  - done.
  - simpl. rewrite length_app. simpl. lia.
  - done.
  - rewrite issued_app. simpl.
    by rewrite (issued_by_addTodo _ _ _ Hne), app_nil_r.
  - eapply Forall_impl; [apply issued_bounds |]. simpl. intros i Hi. apply Hi.
Qed.

Lemma addTodo_appends_witness :
  trim (js " B ") ≠ [] ∧
  let s := run [AddTodo (VStr (js "A")) (js "t0"); ClearAll] fresh in
  ∃ s', addTodo (VStr (js " B ")) (js "t1") s = Returned s' ∧
        todos s' = todos s ++ [{| id := nextId s; text := trim (js " B ");
                                  completed := false; createdAt := js "t1" |}] ∧
        length (todos s') = S (length (todos s)) ∧
        nextId s' = nextId s + 1 ∧
        issued ([AddTodo (VStr (js "A")) (js "t0"); ClearAll]
                ++ [AddTodo (VStr (js " B ")) (js "t1")]) fresh
          = issued [AddTodo (VStr (js "A")) (js "t0"); ClearAll] fresh
            ++ [nextId s] ∧
        Forall (λ i, i < nextId s)
          (issued [AddTodo (VStr (js "A")) (js "t0"); ClearAll] fresh).
Proof.
  assert (Hne : trim (js " B ") ≠ []) by (vm_compute; discriminate).
  split; [exact Hne |].
  exact (addTodo_appends fresh
           [AddTodo (VStr (js "A")) (js "t0"); ClearAll]
           (js " B ") (js "t1") Hne).
Defined.

(** C3. For a string that trims to the empty string, [addTodo] returns
    and leaves everything as it was: the list, the counter, the storage
    (nothing is saved) and the trace (no listener is called). *)
Theorem addTodo_blank (txt now : jsstring) (s : State) :
  trim txt = [] → addTodo (VStr txt) now s = Returned s.
Proof.
  intros Hblank. unfold addTodo.
  destruct (truthy (VStr txt)); simpl; [| done].
  by rewrite bool_decide_eq_true_2.
Qed.

Lemma addTodo_blank_witness :
  trim (js "   ") = [] ∧
  addTodo (VStr (js "   ")) (js "t1") buy_milk = Returned buy_milk.
Proof.
  split; [reflexivity |].
  apply (addTodo_blank (js "   ") (js "t1") buy_milk). reflexivity.
Defined.

(** C4. [updateTodo] with a string: when an item has the identifier and
    the string does not trim to empty, the first such item gets the
    trimmed string as its text, in place, both keys are saved and every
    listener is called; when no item has the identifier, or the string
    trims to empty, the call returns and nothing has changed. *)
Theorem updateTodo_spec (idv : value) (newText : jsstring) (s : State) :
  ((∃ t, t ∈ todos s ∧ has_id idv t) → trim newText ≠ [] →
   ∃ l1 t l2 s',
     todos s = l1 ++ t :: l2 ∧ Forall (λ u, ¬ has_id idv u) l1 ∧
     has_id idv t ∧
     updateTodo idv (VStr newText) s = Returned s' ∧
     todos s' = l1 ++ {| id := id t; text := trim newText;
                         completed := completed t;
                         createdAt := createdAt t |} :: l2 ∧
     nextId s' = nextId s ∧ listeners s' = listeners s ∧
     storage s' = <["nextId" := SNum (nextId s')]>
                    (<["items" := SItems (todos s')]> (storage s)) ∧
     trace s' = trace s ++ effects s')
  ∧
  ((¬ ∃ t, t ∈ todos s ∧ has_id idv t) ∨ trim newText = [] →
   updateTodo idv (VStr newText) s = Returned s).
Proof.
  split.
  - intros Hex Hne.
    destruct (find_present idv _ Hex) as [[i t] Hf].
    destruct (find_split idv _ _ _ Hf) as (l1 & l2 & Hl & Hlen & Ht & Hl1).
    exists l1, t, l2. eexists. split_and!; [done | done | done | | | | | |].
    + unfold updateTodo. rewrite Hf, (trim_nonempty _ Hne); simpl.
      by rewrite bool_decide_eq_false_2 by done.
    + simpl. rewrite Hl at 1. subst i. apply insert_split.
    + done.
    + done.
    + done.
    + exact (trace_effects _).
  - intros Hnoop. unfold updateTodo.
    destruct (list_find _ _) as [[i t] |] eqn:Hf; [| done].
    destruct Hnoop as [Hno | Hblank].
    + by rewrite (find_absent idv _ Hno) in Hf.
    + destruct (truthy (VStr newText)); simpl; [| done].
      by rewrite bool_decide_eq_true_2.
Qed.

Lemma updateTodo_spec_witness :
  (∃ t, t ∈ todos buy_milk ∧ has_id (VNum 1) t) ∧
  trim (js " Buy bread ") ≠ [] ∧
  ∃ l1 t l2 s',
    todos buy_milk = l1 ++ t :: l2 ∧ Forall (λ u, ¬ has_id (VNum 1) u) l1 ∧
    has_id (VNum 1) t ∧
    updateTodo (VNum 1) (VStr (js " Buy bread ")) buy_milk = Returned s' ∧
    todos s' = l1 ++ {| id := id t; text := trim (js " Buy bread ");
                        completed := completed t;
                        createdAt := createdAt t |} :: l2 ∧
    nextId s' = nextId buy_milk ∧ listeners s' = listeners buy_milk ∧
    storage s' = <["nextId" := SNum (nextId s')]>
                   (<["items" := SItems (todos s')]> (storage buy_milk)) ∧
    trace s' = trace buy_milk ++ effects s'.
Proof.
  assert (Hex : ∃ t, t ∈ todos buy_milk ∧ has_id (VNum 1) t).
  { eexists. split; [apply list_elem_of_here | reflexivity]. }
  assert (Hne : trim (js " Buy bread ") ≠ []) by (vm_compute; discriminate).
  split_and!; [exact Hex | exact Hne |].
  exact (proj1 (updateTodo_spec (VNum 1) (js " Buy bread ") buy_milk) Hex Hne).
Defined.

(** C5. [deleteTodo] returns with the list filtered: exactly the items
    that do not have the identifier stay, in the order they had.  Both
    keys are saved and every listener is called in any case; when no
    item has the identifier the list is the one before the call, and the
    saves and the calls of the listeners happen all the same. *)
Theorem deleteTodo_spec (idv : value) (s : State) :
  ∃ s', deleteTodo idv s = Returned s' ∧
        todos s' = filter (λ t, ¬ has_id idv t) (todos s) ∧
        (∀ t, t ∈ todos s' ↔ t ∈ todos s ∧ ¬ has_id idv t) ∧
        todos s' `sublist_of` todos s ∧
        ((¬ ∃ t, t ∈ todos s ∧ has_id idv t) → todos s' = todos s) ∧
        nextId s' = nextId s ∧ listeners s' = listeners s ∧
        storage s' = <["nextId" := SNum (nextId s')]>
                       (<["items" := SItems (todos s')]> (storage s)) ∧
        trace s' = trace s ++ effects s'.
Proof.
  eexists. split_and!; [reflexivity | done | | | | done | done | done |].
  - intros t. simpl. rewrite list_elem_of_filter. tauto.
  - apply sublist_filter.
  - intros Hno. simpl. apply filter_all, Forall_forall.
    intros t Hin Ht. apply Hno. eauto.
  - exact (trace_effects _).
Qed.

(** C6. [toggleComplete] on the identifier of an item in the list flips
    the completed flag of the first such item and nothing else in the
    list; a second call right after the first gives the list back as it
    was, so the flag has its first value again.  On an identifier no
    item has, the call returns and nothing has changed. *)
Theorem toggleComplete_involution (idv : value) (s : State) :
  ((∃ t, t ∈ todos s ∧ has_id idv t) →
   ∃ l1 t l2 s1 s2,
     todos s = l1 ++ t :: l2 ∧ Forall (λ u, ¬ has_id idv u) l1 ∧
     has_id idv t ∧
     toggleComplete idv s = Returned s1 ∧
     todos s1 = l1 ++ {| id := id t; text := text t;
                         completed := negb (completed t);
                         createdAt := createdAt t |} :: l2 ∧
     toggleComplete idv s1 = Returned s2 ∧
     todos s2 = todos s)
  ∧
  ((¬ ∃ t, t ∈ todos s ∧ has_id idv t) → toggleComplete idv s = Returned s).
Proof.
  split.
  - intros Hex.
    destruct (find_present idv _ Hex) as [[i t] Hf].
    destruct (find_split idv _ _ _ Hf) as (l1 & l2 & Hl & Hlen & Ht & Hl1).
    assert (Hs1 : <[i := toggle t]> (todos s) = l1 ++ toggle t :: l2).
    { rewrite Hl. subst i. apply insert_split. }
    assert (Hf1 : list_find (has_id idv) (l1 ++ toggle t :: l2)
                  = Some (i, toggle t)).
    { apply list_find_Some. split_and!.
      - subst i. by apply list_lookup_middle.
      - exact Ht.
      - intros j u Hj Hlt. subst i.
        rewrite lookup_app_l in Hj by done.
        apply (proj1 (Forall_forall _ _) Hl1 u).
        by apply list_elem_of_lookup_2 with j. }
    exists l1, t, l2. do 2 eexists.
    split_and!; [done | done | done | | | |].
    + unfold toggleComplete. by rewrite Hf.
    + simpl. exact Hs1.
    + unfold toggleComplete. simpl. by rewrite Hs1, Hf1.
    + simpl. subst i. rewrite insert_split, Hl.
      destruct t as [? ? c ?]. unfold toggle; simpl. by rewrite negb_involutive.
  - intros Hno. unfold toggleComplete.
    by rewrite (find_absent idv _ Hno).
Qed.

Lemma toggleComplete_involution_witness :
  (∃ t, t ∈ todos buy_milk ∧ has_id (VNum 1) t) ∧
  ∃ l1 t l2 s1 s2,
    todos buy_milk = l1 ++ t :: l2 ∧ Forall (λ u, ¬ has_id (VNum 1) u) l1 ∧
    has_id (VNum 1) t ∧
    toggleComplete (VNum 1) buy_milk = Returned s1 ∧
    todos s1 = l1 ++ {| id := id t; text := text t;
                        completed := negb (completed t);
                        createdAt := createdAt t |} :: l2 ∧
    toggleComplete (VNum 1) s1 = Returned s2 ∧
    todos s2 = todos buy_milk.
Proof.
  assert (Hex : ∃ t, t ∈ todos buy_milk ∧ has_id (VNum 1) t).
  { eexists. split; [apply list_elem_of_here | reflexivity]. }
  split; [exact Hex |].
  exact (proj1 (toggleComplete_involution (VNum 1) buy_milk) Hex).
Defined.

(** C7. [clearCompleted] returns with exactly the items that are not
    completed, in the order they had; both keys are saved and every
    listener is called, also when no item was completed and the list is
    the one before the call.  A second call right after the first leaves
    the list as the first call left it. *)
Theorem clearCompleted_idempotent (s : State) :
  ∃ s1 s2,
    clearCompleted s = Returned s1 ∧
    todos s1 = filter (λ t, completed t = false) (todos s) ∧
    (∀ t, t ∈ todos s1 ↔ t ∈ todos s ∧ completed t = false) ∧
    todos s1 `sublist_of` todos s ∧
    (Forall (λ t, completed t = false) (todos s) → todos s1 = todos s) ∧
    nextId s1 = nextId s ∧ listeners s1 = listeners s ∧
    storage s1 = <["nextId" := SNum (nextId s1)]>
                   (<["items" := SItems (todos s1)]> (storage s)) ∧
    trace s1 = trace s ++ effects s1 ∧
    clearCompleted s1 = Returned s2 ∧
    todos s2 = todos s1.
Proof.
  do 2 eexists.
  split_and!; [reflexivity | done | | | | done | done | done | | reflexivity |].
  - intros t. simpl. rewrite list_elem_of_filter. tauto.
  - apply sublist_filter.
  - intros Hall. simpl. by apply filter_all.
  - exact (trace_effects _).
  - simpl. apply list_filter_filter_l. done.
Qed.





(** C9. [toggleComplete] and [updateTodo] keep the length of the list
    and every item that does not have the identifier, at its position;
    at every position the item keeps its [id] and [createdAt], and
    moreover its [text] under [toggleComplete] and its [completed] flag
    under [updateTodo]. *)
Theorem toggle_update_frame (idv newText : value) (s : State) :
  let s1 := state_of (toggleComplete idv s) in
  let s2 := state_of (updateTodo idv newText s) in
  length (todos s1) = length (todos s) ∧
  length (todos s2) = length (todos s) ∧
  ∀ i t, todos s !! i = Some t →
    (¬ has_id idv t → todos s1 !! i = Some t ∧ todos s2 !! i = Some t) ∧
    (∃ t1, todos s1 !! i = Some t1 ∧
           id t1 = id t ∧ text t1 = text t ∧ createdAt t1 = createdAt t) ∧
    (∃ t2, todos s2 !! i = Some t2 ∧
           id t2 = id t ∧ completed t2 = completed t ∧
           createdAt t2 = createdAt t).
Proof.
  intros s1 s2.
  assert (Hwrite : ∀ (f : Todo → Todo) s',
    (todos s' = todos s ∨
     ∃ i0 t0, list_find (has_id idv) (todos s) = Some (i0, t0) ∧
              todos s' = <[i0 := f t0]> (todos s)) →
    length (todos s') = length (todos s) ∧
    ∀ i t, todos s !! i = Some t →
      (¬ has_id idv t → todos s' !! i = Some t) ∧
      (todos s' !! i = Some t ∨ todos s' !! i = Some (f t))).
  { intros f s' [-> | (i0 & t0 & Hf & ->)]; [by auto |].
    split; [apply length_insert |]. intros i t Hi.
    apply list_find_Some in Hf as (H0 & Ht0 & _).
    rewrite (insert_frame f _ _ _ _ _ H0 Hi).
    case_decide as Heq; [| by auto].
    split; [| by auto]. intros Hnot. subst i0. congruence. }
  assert (H1 : todos s1 = todos s ∨
     ∃ i0 t0, list_find (has_id idv) (todos s) = Some (i0, t0) ∧
              todos s1 = <[i0 := toggle t0]> (todos s)).
  { subst s1. unfold toggleComplete.
    destruct (list_find _ _) as [[i0 t0] |]; simpl; eauto. }
  assert (H2 : ∃ trimmed, todos s2 = todos s ∨
     ∃ i0 t0, list_find (has_id idv) (todos s) = Some (i0, t0) ∧
              todos s2 = <[i0 := set_text trimmed t0]> (todos s)).
  { subst s2. unfold updateTodo.
    destruct (list_find _ _) as [[i0 t0] |]; simpl; [| by exists []; left].
    destruct (truthy newText); simpl; [| by exists []; left].
    destruct (call_trim newText) as [e | trimmed]; simpl; [by exists []; left |].
    exists trimmed. case_bool_decide; simpl; eauto. }
  destruct H2 as [trimmed H2].
  destruct (Hwrite toggle _ H1) as [Hlen1 Hat1].
  destruct (Hwrite (set_text trimmed) _ H2) as [Hlen2 Hat2].
  split_and!; [done | done |]. intros i t Hi.
  destruct (Hat1 i t Hi) as [Hkeep1 Hfield1].
  destruct (Hat2 i t Hi) as [Hkeep2 Hfield2].
  split_and!.
  - by auto.
  - destruct Hfield1 as [-> | ->]; eauto.
  - destruct Hfield2 as [-> | ->]; eauto.
Qed.

(** C10. [addTodo(null)] and [addTodo(undefined)] return and leave
    everything as it was: the list, the counter, the storage and the
    trace, so nothing is saved and no listener is called; the guard
    [!text] answers before [trim] is reached. *)
Theorem addTodo_nullish (now : jsstring) (s : State) :
  addTodo VNull now s = Returned s ∧ addTodo VUndefined now s = Returned s.
Proof. split; reflexivity. Qed.

(** * Further properties of the model *)

(** ** Trimming *)

Lemma trimStart_white s : white s → trimStart s = [].
Proof. induction 1 as [| c r Hc _ IH]; simpl; [done | by rewrite Hc]. Qed.

Lemma trimStart_nil s : trimStart s = [] → white s.
Proof.
  induction s as [| c r IH]; simpl; [constructor |].
  destruct (is_white_space c) eqn:Hc; [| done].
  intros Hr. constructor; [done | by apply IH].
Qed.

Lemma trimStart_cons c r : is_white_space c = false → trimStart (c :: r) = c :: r.
Proof. intros Hc. simpl. by rewrite Hc. Qed.

(** What [trimStart] leaves is empty or starts with a code unit that is
    not white space. *)
Lemma trimStart_head s :
  trimStart s = [] ∨ ∃ c r, trimStart s = c :: r ∧ is_white_space c = false.
Proof.
  induction s as [| c r IH]; simpl; [by left |].
  destruct (is_white_space c) eqn:Hc; [done | right; eauto].
Qed.

Lemma trimStart_snoc s c :
  is_white_space c = false → trimStart (s ++ [c]) = trimStart s ++ [c].
Proof.
  intros Hc. induction s as [| d r IH]; simpl; [by rewrite Hc |].
  by destruct (is_white_space d).
Qed.

Lemma trimEnd_nil : trimEnd [] = [].
Proof. reflexivity. Qed.

Lemma trimEnd_cons c r :
  is_white_space c = false → trimEnd (c :: r) = c :: trimEnd r.
Proof.
  intros Hc. unfold trimEnd.
  by rewrite reverse_cons, (trimStart_snoc _ _ Hc), reverse_snoc.
Qed.

Lemma trim_white s : trim s = [] ↔ white s.
Proof.
  unfold trim. split.
  - intros Hnil. destruct (trimStart_head s) as [Hs | (c & r & Hs & Hc)].
    + by apply trimStart_nil.
    + rewrite Hs, (trimEnd_cons _ _ Hc) in Hnil. discriminate.
  - intros Hw. by rewrite (trimStart_white _ Hw).
Qed.

Lemma trimStart_trimEnd s :
  (s = [] ∨ ∃ c r, s = c :: r ∧ is_white_space c = false) →
  trimStart (trimEnd s) = trimEnd s.
Proof.
  intros [-> | (c & r & -> & Hc)]; [done |].
  by rewrite (trimEnd_cons _ _ Hc), (trimStart_cons _ _ Hc).
Qed.

Lemma trimEnd_trimEnd s : trimEnd (trimEnd s) = trimEnd s.
Proof.
  unfold trimEnd. rewrite reverse_involutive. f_equal.
  destruct (trimStart_head (reverse s)) as [-> | (c & r & -> & Hc)]; [done |].
  by apply trimStart_cons.
Qed.

Lemma trim_trim s : trim (trim s) = trim s.
Proof.
  unfold trim at 1 2.
  rewrite (trimStart_trimEnd (trimStart s)) by apply trimStart_head.
  apply trimEnd_trimEnd.
Qed.

(** ** Quiet and loud calls *)

Lemma loud_effects s0 s : 
  storage s = storage s0 → trace s = trace s0 → listeners s = listeners s0 →
  loud s0 (notify (save s)).
Proof.
  intros Hst Htr Hli. split_and!.
  - simpl. by rewrite Hst.
  - rewrite trace_effects, Htr. done.
  - simpl. done.
Qed.

Lemma step_quiet_or_loud o s :
  quiet s (state_of (step o s)) ∨ loud s (state_of (step o s)).
Proof.
  destruct o; simpl.
  - by left.
  - unfold addTodo. destruct (truthy txt); simpl; [| by left].
    destruct (call_trim txt); simpl; [by left |].
    case_bool_decide; simpl; [by left |]. right. by apply loud_effects.
  - unfold toggleComplete.
    destruct (list_find _ _) as [[i t] |]; simpl; [| by left].
    right. by apply loud_effects.
  - right. by apply loud_effects.
  - unfold updateTodo.
    destruct (list_find _ _) as [[i t] |]; simpl; [| by left].
    destruct (truthy newText); simpl; [| by left].
    destruct (call_trim newText); simpl; [by left |].
    case_bool_decide; simpl; [by left |]. right. by apply loud_effects.
  - right. by apply loud_effects.
  - right. by apply loud_effects.
Qed.

(** ** The texts in the list *)

Lemma texts_step o s :
  Forall text_ok (todos s) → Forall text_ok (todos (state_of (step o s))).
Proof.
  intros Hok. destruct o; simpl; try done.
  - unfold addTodo. destruct (truthy txt); simpl; [| done].
    destruct txt as [| | | | txt]; simpl; try done.
    case_bool_decide as Hnil; simpl; [done |].
    apply Forall_app. split; [done |]. apply Forall_singleton.
    split; simpl; [done | apply trim_trim].
  - unfold toggleComplete.
    destruct (list_find _ _) as [[i t] |] eqn:Hf; simpl; [| done].
    apply list_find_Some in Hf as (Hi & _).
    apply Forall_insert; [done |].
    by apply (proj1 (Forall_forall _ _) Hok t), list_elem_of_lookup_2 with i.
  - apply Forall_forall. intros t [_ Hin]%list_elem_of_filter.
    by apply (proj1 (Forall_forall _ _) Hok).
  - unfold updateTodo.
    destruct (list_find _ _) as [[i t] |] eqn:Hf; simpl; [| done].
    destruct (truthy newText); simpl; [| done].
    destruct newText as [| | | | txt]; simpl; try done.
    case_bool_decide as Hnil; simpl; [done |].
    apply Forall_insert; [done |].
    split; simpl; [done | apply trim_trim].
  - apply Forall_forall. intros t [_ Hin]%list_elem_of_filter.
    by apply (proj1 (Forall_forall _ _) Hok).
Qed.

Lemma texts_run ops s :
  Forall text_ok (todos s) → Forall text_ok (todos (run ops s)).
Proof.
  revert s. induction ops as [| o r IH]; intros s Hok; simpl; [done |].
  by apply IH, texts_step.
Qed.

(** ** The identifiers issued along a run *)

Lemma issued_increasing ops s : StronglySorted Z.lt (issued ops s).
Proof.
  revert s. induction ops as [| o r IH]; intros s; simpl; [constructor |].
  unfold issued_by. case_decide as Hmove; simpl; [apply IH |].
  constructor; [apply IH |].
  eapply Forall_impl; [apply issued_bounds |]. simpl. intros i Hi.
  destruct (nextId_step o s); [done | lia].
Qed.

(** ** Counting *)

Lemma find_at_split idv (l1 l2 : list Todo) t :
  Forall (λ u, ¬ has_id idv u) l1 → has_id idv t →
  list_find (has_id idv) (l1 ++ t :: l2) = Some (length l1, t).
Proof.
  intros Hl1 Ht. apply list_find_Some. split_and!.
  - by apply list_lookup_middle.
  - done.
  - intros j u Hj Hlt. rewrite lookup_app_l in Hj by done.
    apply (proj1 (Forall_forall _ _) Hl1 u).
    by apply list_elem_of_lookup_2 with j.
Qed.

Lemma filter_none {A} (P : A → Prop) `{!∀ x, Decision (P x)} (l : list A) :
  Forall (λ x, ¬ P x) l → filter P l = [].
Proof.
  induction 1 as [| x l Hx _ IH]; [done |].
  by rewrite filter_cons_False.
Qed.

Lemma StronglySorted_lt_NoDup (l : list Z) : StronglySorted Z.lt l → NoDup l.
Proof.
  induction 1 as [| x l _ IH Hx]; constructor; [| done].
  intros Hin. pose proof (proj1 (Forall_forall _ _) Hx x Hin). lia.
Qed.

Lemma toggleComplete_at idv s l1 t l2 :
  todos s = l1 ++ t :: l2 → Forall (λ u, ¬ has_id idv u) l1 → has_id idv t →
  todos (state_of (toggleComplete idv s)) = l1 ++ toggle t :: l2.
Proof.
  intros Hl Hl1 Ht. unfold toggleComplete.
  rewrite Hl, (find_at_split _ _ _ _ Hl1 Ht). simpl.
  apply insert_split.
Qed.

Lemma addTodo_blank_state txt now s :
  trim txt = [] → state_of (addTodo (VStr txt) now s) = s.
Proof.
  intros Hblank. unfold addTodo.
  destruct (truthy (VStr txt)); simpl; [| done].
  by rewrite bool_decide_eq_true_2.
Qed.

(** ** The items appended *)

Lemma drop_same_length {A} (l k : list A) :
  (length k ≤ length l)%nat → drop (length l) k = [].
Proof. intros Hle. by apply drop_ge. Qed.

(** The identifier of the item a call appends is the one the counter
    issues, and a call that appends nothing leaves the counter. *)
Lemma appended_issued o s : id <$> appended o s = issued_by o s.
Proof.
  unfold appended, issued_by. destruct o; simpl.
  - by rewrite drop_all, decide_True.
  - unfold addTodo. destruct (truthy txt); simpl;
      [| by rewrite drop_all, decide_True].
    destruct (call_trim txt); simpl; [by rewrite drop_all, decide_True |].
    case_bool_decide; simpl; [by rewrite drop_all, decide_True |].
    rewrite drop_app_length, decide_False by lia. done.
  - unfold toggleComplete.
    destruct (list_find _ _) as [[i t] |]; simpl;
      [| by rewrite drop_all, decide_True].
    rewrite drop_same_length by (by rewrite length_insert).
    by rewrite decide_True.
  - rewrite drop_same_length by apply length_filter. by rewrite decide_True.
  - unfold updateTodo.
    destruct (list_find _ _) as [[i t] |]; simpl;
      [| by rewrite drop_all, decide_True].
    destruct (truthy newText); simpl; [| by rewrite drop_all, decide_True].
    destruct (call_trim newText); simpl; [by rewrite drop_all, decide_True |].
    case_bool_decide; simpl; [by rewrite drop_all, decide_True |].
    rewrite drop_same_length by (by rewrite length_insert).
    by rewrite decide_True.
  - rewrite drop_same_length by apply length_filter. by rewrite decide_True.
  - rewrite drop_nil. by rewrite decide_True.
Qed.

Lemma given_issued ops s : given ops s = issued ops s.
Proof.
  revert s. induction ops as [| o r IH]; intros s; simpl; [done |].
  by rewrite appended_issued, IH.
Qed.

(** ** The extra properties *)

(** X1. From a store constructed on storage whose items, if any, have
    trimmed, non-empty texts (empty storage among them), every text in
    the list stays non-empty and trimmed, whatever calls are made. *)
Theorem texts_stay_trimmed (st : gmap string stored) (s0 : State) (ops : list op) :
  TodoModel st = Some s0 →
  (∀ l, st !! "items" = Some (SItems l) → Forall text_ok l) →
  Forall text_ok (todos (run ops s0)).
Proof.
  intros Hnew Hst. apply texts_run.
  unfold TodoModel, storage_load in Hnew.
  destruct (st !! "items") as [[l | m] |] eqn:Hit;
    destruct (st !! "nextId") as [[l' | n] |] eqn:Hnx;
    simplify_eq; simpl; auto; constructor.
Qed.

Lemma texts_stay_trimmed_witness :
  TodoModel ∅ = Some fresh ∧
  (∀ l, (∅ : gmap string stored) !! "items" = Some (SItems l) →
        Forall text_ok l) ∧
  Forall text_ok
    (todos (run [AddTodo (VStr (js "  A ")) (js "t0");
                 UpdateTodo (VNum 1) (VStr (js " B  "))] fresh)).
Proof.
  assert (Hst : ∀ l, (∅ : gmap string stored) !! "items" = Some (SItems l) →
                     Forall text_ok l) by (intros l Hl; discriminate Hl).
  split_and!; [reflexivity | exact Hst |].
  exact (texts_stay_trimmed ∅ fresh _ eq_refl Hst).
Defined.

(** X3. From a store constructed on empty storage, the identifiers of
    the items appended along any run, read off the items, are strictly
    increasing: no identifier is given twice, also after [deleteTodo],
    [clearCompleted] or [clearAll] took items away; and every
    identifier in the list at the end is one of them. *)
Theorem identifiers_never_reused (s0 : State) (ops : list op) :
  TodoModel ∅ = Some s0 →
  StronglySorted Z.lt (given ops s0) ∧ NoDup (given ops s0) ∧
  ∀ i, i ∈ id <$> todos (run ops s0) → i ∈ given ops s0.
Proof.
  intros Hnew. injection Hnew as <-. rewrite given_issued.
  split_and!; [apply issued_increasing | |].
  - apply StronglySorted_lt_NoDup, issued_increasing.
  - intros i Hi. by apply (ids_run ops fresh) in Hi.
Qed.

Lemma identifiers_never_reused_witness :
  TodoModel ∅ = Some fresh ∧
  StronglySorted Z.lt
    (given [AddTodo (VStr (js "A")) (js "t0"); ClearAll;
            AddTodo (VStr (js "B")) (js "t1")] fresh) ∧
  NoDup (given [AddTodo (VStr (js "A")) (js "t0"); ClearAll;
                AddTodo (VStr (js "B")) (js "t1")] fresh) ∧
  ∀ i, i ∈ id <$> todos (run [AddTodo (VStr (js "A")) (js "t0"); ClearAll;
                              AddTodo (VStr (js "B")) (js "t1")] fresh) →
       i ∈ given [AddTodo (VStr (js "A")) (js "t0"); ClearAll;
                  AddTodo (VStr (js "B")) (js "t1")] fresh.
Proof.
  split; [reflexivity |].
  exact (identifiers_never_reused fresh _ eq_refl).
Defined.

(** X4. A call never changes the list or the counter behind the back of
    storage and listeners: either list, counter, storage and trace are
    all as before, or both keys were saved with the list and the counter
    the call ends with, and then every listener was called once per
    subscription, in the order of subscription.  The two cases exclude
    each other. *)
Theorem call_quiet_or_loud (o : op) (s : State) :
  let s' := state_of (step o s) in
  (quiet s s' ∨ loud s s') ∧ ¬ (quiet s s' ∧ loud s s').
Proof.
  intros s'. split; [apply step_quiet_or_loud |].
  intros [(_ & _ & _ & Hq) (_ & Hl & _)].
  rewrite Hq in Hl. apply (f_equal length) in Hl.
  rewrite length_app in Hl. simpl in Hl. lia.
Qed.

(** X5. [clearAll] empties the list, so both counts are zero, saves and
    notifies, and keeps the counter: the next item added gets the
    identifier the counter had before the list was cleared. *)
Theorem clearAll_keeps_counter (txt now : jsstring) (s : State) :
  trim txt ≠ [] →
  ∃ s1, clearAll s = Returned s1 ∧
        todos s1 = [] ∧ activeCount s1 = 0%nat ∧ completedCount s1 = 0%nat ∧
        nextId s1 = nextId s ∧
        storage s1 = <["nextId" := SNum (nextId s)]>
                       (<["items" := SItems []]> (storage s)) ∧
        trace s1 = trace s ++ effects s1 ∧
        todos (state_of (addTodo (VStr txt) now s1))
        = [{| id := nextId s; text := trim txt; completed := false;
              createdAt := now |}].
Proof.
  intros Hne. eexists.
  split_and!; [reflexivity | done | done | done | done | done | |].
  - exact (trace_effects _).
  - unfold addTodo. rewrite (trim_nonempty _ Hne); simpl.
    by rewrite bool_decide_eq_false_2 by done.
Qed.

Lemma clearAll_keeps_counter_witness :
  trim (js "Again") ≠ [] ∧
  ∃ s1, clearAll buy_milk = Returned s1 ∧
        todos s1 = [] ∧ activeCount s1 = 0%nat ∧ completedCount s1 = 0%nat ∧
        nextId s1 = nextId buy_milk ∧
        storage s1 = <["nextId" := SNum (nextId buy_milk)]>
                       (<["items" := SItems []]> (storage buy_milk)) ∧
        trace s1 = trace buy_milk ++ effects s1 ∧
        todos (state_of (addTodo (VStr (js "Again")) (js "t1") s1))
        = [{| id := nextId buy_milk; text := trim (js "Again");
              completed := false; createdAt := js "t1" |}].
Proof.
  assert (Hne : trim (js "Again") ≠ []) by (vm_compute; discriminate).
  split; [exact Hne |].
  exact (clearAll_keeps_counter (js "Again") (js "t1") buy_milk Hne).
Defined.

(** X6. [toggleComplete] on an item found moves one unit between the two
    counts: an active item becomes completed, a completed one active. *)
Theorem toggleComplete_counts (idv : value) (s : State)
    (l1 l2 : list Todo) (t : Todo) :
  todos s = l1 ++ t :: l2 → Forall (λ u, ¬ has_id idv u) l1 → has_id idv t →
  let s' := state_of (toggleComplete idv s) in
  (completed t = false →
     activeCount s = S (activeCount s') ∧
     completedCount s' = S (completedCount s)) ∧
  (completed t = true →
     activeCount s' = S (activeCount s) ∧
     completedCount s = S (completedCount s')).
Proof.
  intros Hl Hl1 Ht s'. unfold activeCount, completedCount. subst s'.
  rewrite (toggleComplete_at _ _ _ _ _ Hl Hl1 Ht), Hl.
  rewrite !filter_app, !filter_cons, !length_app. unfold toggle; simpl.
  split; intros Hc; rewrite Hc; simpl; lia.
Qed.

Lemma toggleComplete_counts_witness :
  todos buy_milk = [] ++ {| id := 1; text := js "Buy milk"; completed := false;
                           createdAt := js "t0" |} :: [] ∧
  let s' := state_of (toggleComplete (VNum 1) buy_milk) in
  activeCount buy_milk = S (activeCount s') ∧
  completedCount s' = S (completedCount buy_milk).
Proof.
  split; [reflexivity |].
  refine (proj1 (toggleComplete_counts (VNum 1) buy_milk [] []
                   {| id := 1; text := js "Buy milk"; completed := false;
                      createdAt := js "t0" |} eq_refl _ eq_refl) eq_refl).
  constructor.
Defined.

(** X7. After [clearCompleted] no item is completed and the active items
    are all still there: the completed count is zero, the active count
    is what it was, and the list is as long as the active count. *)
Theorem clearCompleted_counts (s : State) :
  let s' := state_of (clearCompleted s) in
  completedCount s' = 0%nat ∧ activeCount s' = activeCount s ∧
  length (todos s') = activeCount s.
Proof.
  intros s'. unfold activeCount, completedCount. subst s'. simpl.
  split_and!.
  - rewrite filter_none; [done |]. apply Forall_forall.
    intros t [Hc _]%list_elem_of_filter. congruence.
  - by rewrite list_filter_filter_l.
  - done.
Qed.

Lemma no_other_with_id idv (l1 l2 : list Todo) t :
  NoDup (id <$> (l1 ++ t :: l2)) → has_id idv t →
  Forall (λ u, ¬ has_id idv u) l1 ∧ Forall (λ u, ¬ has_id idv u) l2.
Proof.
  rewrite fmap_app, fmap_cons. intros Hnd Ht.
  apply NoDup_app in Hnd as (_ & Hdisj & [Hnot _]%NoDup_cons).
  unfold has_id in *. subst idv.
  split; apply Forall_forall; intros u Hin Hu; simplify_eq.
  - apply (Hdisj (id u)); [by apply list_elem_of_fmap_2 |].
    rewrite Hu. apply list_elem_of_here.
  - apply Hnot. rewrite <- Hu. by apply list_elem_of_fmap_2.
Qed.

(** X8. When the identifiers in the list are pairwise distinct (as they
    are in a store built from empty storage), [deleteTodo] on the
    identifier of an item takes out that one item and nothing else; no
    item has the identifier afterwards, so a later [toggleComplete] or
    [updateTodo] on it finds nothing and changes nothing. *)
Theorem deleteTodo_removes_one (idv newText : value) (s : State)
    (l1 l2 : list Todo) (t : Todo) :
  NoDup (id <$> todos s) → todos s = l1 ++ t :: l2 → has_id idv t →
  ∃ s', deleteTodo idv s = Returned s' ∧
        todos s' = l1 ++ l2 ∧
        (¬ ∃ u, u ∈ todos s' ∧ has_id idv u) ∧
        toggleComplete idv s' = Returned s' ∧
        updateTodo idv newText s' = Returned s'.
Proof.
  intros Hnd Hl Ht. rewrite Hl in Hnd.
  destruct (no_other_with_id _ _ _ _ Hnd Ht) as [Hl1 Hl2].
  assert (Hout : filter (λ u, ¬ has_id idv u) (todos s) = l1 ++ l2).
  { rewrite Hl, filter_app, filter_cons_False by (by intros Hn; apply Hn).
    by rewrite !filter_all. }
  assert (Hgone : ¬ ∃ u, u ∈ l1 ++ l2 ∧ has_id idv u).
  { intros (u & [Hin | Hin]%elem_of_app & Hu).
    - by apply (proj1 (Forall_forall _ _) Hl1 u).
    - by apply (proj1 (Forall_forall _ _) Hl2 u). }
  eexists. split_and!; [reflexivity | exact Hout | | |].
  - simpl. by rewrite Hout.
  - unfold toggleComplete. simpl. rewrite Hout.
    by rewrite (find_absent idv _ Hgone).
  - unfold updateTodo. simpl. rewrite Hout.
    by rewrite (find_absent idv _ Hgone).
Qed.

Lemma deleteTodo_removes_one_witness :
  NoDup (id <$> todos buy_milk) ∧
  todos buy_milk = [] ++ {| id := 1; text := js "Buy milk"; completed := false;
                           createdAt := js "t0" |} :: [] ∧
  ∃ s', deleteTodo (VNum 1) buy_milk = Returned s' ∧
        todos s' = [] ++ [] ∧
        (¬ ∃ u, u ∈ todos s' ∧ has_id (VNum 1) u) ∧
        toggleComplete (VNum 1) s' = Returned s' ∧
        updateTodo (VNum 1) (VStr (js "x")) s' = Returned s'.
Proof.
  assert (Hnd : NoDup (id <$> todos buy_milk)).
  { apply NoDup_singleton. }
  split_and!; [exact Hnd | reflexivity |].
  exact (deleteTodo_removes_one (VNum 1) (VStr (js "x")) buy_milk [] []
           {| id := 1; text := js "Buy milk"; completed := false;
              createdAt := js "t0" |} Hnd eq_refl eq_refl).
Defined.

(** X9. [addTodo] with a string does nothing exactly when the string is
    made of white space only (the empty string among them); any other
    string adds one item, and the item is active: the active count goes
    up by one and the completed count stays. *)
Theorem addTodo_accepts_non_white (txt now : jsstring) (s : State) :
  let s' := state_of (addTodo (VStr txt) now s) in
  (white txt → s' = s) ∧
  (¬ white txt →
     length (todos s') = S (length (todos s)) ∧
     activeCount s' = S (activeCount s) ∧
     completedCount s' = completedCount s).
Proof.
  intros s'. subst s'. split.
  - intros Hw%trim_white. by rewrite addTodo_blank_state.
  - intros Hnw. assert (Hne : trim txt ≠ []) by by rewrite trim_white.
    unfold addTodo. rewrite (trim_nonempty _ Hne); simpl.
    rewrite bool_decide_eq_false_2 by done. simpl.
    unfold activeCount, completedCount. simpl.
    rewrite !filter_app, !length_app. simpl. lia.
Qed.

(** * The storage service *)

(** ** Keys *)

Lemma prefix_append (p r : string) : String.prefix p (p +:+ r) = true.
Proof.
  induction p as [| a p IH]; simpl; [by destruct r |].
  destruct (Ascii.ascii_dec a a); [apply IH | done].
Qed.

Lemma prefix_refl (p : string) : String.prefix p p = true.
Proof.
  induction p as [| a p IH]; simpl; [done |].
  destruct (Ascii.ascii_dec a a); [apply IH | done].
Qed.

Lemma prefix_trans (a b c : string) :
  String.prefix a b = true → String.prefix b c = true →
  String.prefix a c = true.
Proof.
  revert b c. induction a as [| x a IH]; intros b c; simpl; [by destruct c |].
  destruct b as [| y b]; [done |]. destruct c as [| z c]; simpl; [done |].
  destruct (Ascii.ascii_dec x y) as [-> |]; [| done].
  destruct (Ascii.ascii_dec y z) as [-> |]; [| done].
  apply IH.
Qed.

Lemma append_nonempty (p r : string) : r ≠ "" → p +:+ r ≠ "".
Proof. by destruct p, r. Qed.

Lemma full_key_inj sk k k' :
  StorageService.full_key sk k = StorageService.full_key sk k' → k = k'.
Proof.
  unfold StorageService.full_key. intros Heq.
  apply (inj (String.app sk)) in Heq. by apply (inj (String.app "_")) in Heq.
Qed.

Lemma full_key_nonempty sk k : StorageService.full_key sk k ≠ "".
Proof. unfold StorageService.full_key. by apply append_nonempty. Qed.

(** A key of a service whose [storageKey] starts with [sk] is a key
    [clear] of the service [sk] removes. *)
Lemma to_remove_full_key sk sk' k :
  String.prefix sk sk' = true →
  StorageService.to_remove sk (StorageService.full_key sk' k) = true.
Proof.
  intros Hpre. unfold StorageService.to_remove.
  rewrite bool_decide_eq_false_2 by apply full_key_nonempty. simpl.
  eapply prefix_trans; [exact Hpre |]. apply prefix_append.
Qed.

(** ** Removing the keys collected *)

Lemma lookup_foldl_delete {V} (keys : list string) (m : gmap string V) j :
  foldl (λ m key, delete key m) m keys !! j
  = if decide (j ∈ keys) then None else m !! j.
Proof.
  revert m. induction keys as [| key keys IH]; intros m.
  - case_decide as Hin; [by apply elem_of_nil in Hin | done].
  - cbn [foldl]. rewrite IH.
    destruct (decide (j ∈ keys)) as [Hin | Hnin].
    + by rewrite decide_True by by apply list_elem_of_further.
    + destruct (decide (j = key)) as [-> | Hne].
      * rewrite lookup_delete_eq.
        by rewrite decide_True by apply list_elem_of_here.
      * rewrite lookup_delete_ne by done.
        rewrite decide_False; [done |].
        by intros [? | ?]%elem_of_cons.
Qed.

Lemma lookup_clear sk (ls : gmap string string) j :
  StorageService.clear sk ls !! j
  = if StorageService.to_remove sk j then None else ls !! j.
Proof.
  unfold StorageService.clear. rewrite lookup_foldl_delete.
  destruct (StorageService.to_remove sk j) eqn:Hrm.
  - case_decide as Hin; [done |].
    destruct (ls !! j) as [v |] eqn:Hj; [| done].
    exfalso. apply Hin, list_elem_of_filter. split; [done |].
    apply list_elem_of_fmap. exists (j, v). split; [done |].
    by apply elem_of_map_to_list.
  - rewrite decide_False; [done |].
    intros [Hrm' _]%list_elem_of_filter. congruence.
Qed.

(** ** Reading *)

Section reading.
Context {D : Type}.
Variable stringify : D → option string.
Variable parse : string → option D.
Variable accepts : gmap string string → string → string → bool.
Variable storageKey : string.

Lemma load_read key dflt ls :
  StorageService.load parse storageKey key dflt ls
  = default dflt (StorageService.read parse storageKey key ls).
Proof.
  unfold StorageService.load, StorageService.read.
  destruct (ls !! _) as [item |]; [| done].
  case_bool_decide; [done |]. by destruct (parse item).
Qed.

Lemma read_save_same k d v ls :
  stringify d = Some v → accepts ls (StorageService.full_key storageKey k) v = true →
  StorageService.read parse storageKey k
    (StorageService.save stringify accepts storageKey k d ls)
  = if bool_decide (v = "") then None else parse v.
Proof.
  intros Hv Hacc. unfold StorageService.read, StorageService.save.
  by rewrite Hv, Hacc, lookup_insert_eq.
Qed.

Lemma read_save_other k k' d ls :
  k' ≠ k →
  StorageService.read parse storageKey k'
    (StorageService.save stringify accepts storageKey k d ls)
  = StorageService.read parse storageKey k' ls.
Proof.
  intros Hne. unfold StorageService.read, StorageService.save.
  destruct (stringify d) as [v |]; [| done].
  destruct (accepts _ _ _); [| done].
  rewrite lookup_insert_ne; [done |].
  intros Heq. by apply full_key_inj in Heq.
Qed.

End reading.

(** ** The extra properties of the service *)

Section service_properties.
Context {D : Type}.
Variable stringify : D → option string.
Variable parse : string → option D.
Variable accepts : gmap string string → string → string → bool.
Variable storageKey : string.

(** X10. What [save] wrote, [load] under the same key gives back,
    whatever the default: provided the datum has a JSON text that is not
    empty and parses back to the datum, and [localStorage] took the
    write. *)
Theorem save_then_load (k : string) (d dflt : D) (v : string)
    (ls : gmap string string) :
  stringify d = Some v → v ≠ "" → parse v = Some d →
  accepts ls (StorageService.full_key storageKey k) v = true →
  StorageService.load parse storageKey k dflt
    (StorageService.save stringify accepts storageKey k d ls) = d.
Proof.
  intros Hv Hne Hparse Hacc.
  rewrite load_read, (read_save_same _ _ _ _ _ _ _ _ Hv Hacc).
  by rewrite bool_decide_eq_false_2, Hparse.
Qed.

(** X11. [save] and [remove] under one key leave every other key of the
    service as it reads, and after [remove] the key reads as the
    default. *)
Theorem other_keys_untouched (k k' : string) (d dflt : D)
    (ls : gmap string string) :
  k' ≠ k →
  StorageService.load parse storageKey k' dflt
    (StorageService.save stringify accepts storageKey k d ls)
  = StorageService.load parse storageKey k' dflt ls ∧
  StorageService.load parse storageKey k' dflt
    (StorageService.remove storageKey k ls)
  = StorageService.load parse storageKey k' dflt ls ∧
  StorageService.load parse storageKey k dflt
    (StorageService.remove storageKey k ls) = dflt.
Proof.
  intros Hne. split_and!.
  - by rewrite !load_read, (read_save_other stringify).
  - unfold StorageService.load, StorageService.remove.
    rewrite lookup_delete_ne; [done |].
    intros Heq. by apply full_key_inj in Heq.
  - unfold StorageService.load, StorageService.remove.
    by rewrite lookup_delete_eq.
Qed.

(** X12. After [clear], every key of the service reads as the default,
    and so does every key of any other service whose [storageKey]
    starts with the [storageKey] of this one: [clear] goes by
    [startsWith(storageKey)], not by the full prefix with the
    underscore. *)
Theorem clear_wipes_extensions (storageKey' k : string) (dflt : D)
    (ls : gmap string string) :
  String.prefix storageKey storageKey' = true →
  StorageService.load parse storageKey k dflt
    (StorageService.clear storageKey ls) = dflt ∧
  StorageService.load parse storageKey' k dflt
    (StorageService.clear storageKey ls) = dflt.
Proof.
  intros Hpre. unfold StorageService.load. rewrite !lookup_clear.
  rewrite (to_remove_full_key _ _ _ Hpre).
  by rewrite to_remove_full_key by apply prefix_refl.
Qed.

(** X13. [clear] leaves every key of [localStorage] that does not start
    with [storageKey] with the text it had, and it never removes the
    empty key; the keys it leaves are the only ones left. *)
Theorem clear_keeps_foreign_keys (j : string) (ls : gmap string string) :
  (String.prefix storageKey j = false ∨ j = "" →
   StorageService.clear storageKey ls !! j = ls !! j) ∧
  (is_Some (StorageService.clear storageKey ls !! j) →
   String.prefix storageKey j = false ∨ j = "").
Proof.
  rewrite lookup_clear. unfold StorageService.to_remove. split.
  - intros [-> | ->]; [by rewrite andb_false_r | done].
  - case_bool_decide; simpl; [by right |].
    destruct (String.prefix storageKey j); [by intros [] | by left].
Qed.

(** X14. The service is a map from its callers' keys to data: when a
    map holds under every key what the service reads there, a successful
    [save] is an insertion into the map, [remove] a deletion, and after
    [clear] the map is empty. *)
Theorem service_is_a_map (k : string) (d : D) (v : string)
    (ls : gmap string string) (st : gmap string D) :
  agree parse storageKey ls st →
  stringify d = Some v → v ≠ "" → parse v = Some d →
  accepts ls (StorageService.full_key storageKey k) v = true →
  agree parse storageKey
    (StorageService.save stringify accepts storageKey k d ls) (<[k := d]> st) ∧
  agree parse storageKey (StorageService.remove storageKey k ls) (delete k st) ∧
  agree parse storageKey (StorageService.clear storageKey ls) ∅.
Proof.
  intros Hag Hv Hne Hparse Hacc. split_and!; intros k'.
  - destruct (decide (k' = k)) as [-> | Hk].
    + rewrite lookup_insert_eq, (read_save_same _ _ _ _ _ _ _ _ Hv Hacc).
      by rewrite bool_decide_eq_false_2.
    + rewrite lookup_insert_ne by done.
      by rewrite (read_save_other stringify).
  - unfold StorageService.read, StorageService.remove.
    destruct (decide (k' = k)) as [-> | Hk].
    + by rewrite !lookup_delete_eq.
    + rewrite !lookup_delete_ne; [apply Hag | | done].
      intros Heq. by apply full_key_inj in Heq.
  - rewrite lookup_empty. unfold StorageService.read.
    rewrite lookup_clear.
    by rewrite to_remove_full_key by apply prefix_refl.
Qed.

End service_properties.

Lemma save_then_load_witness :
  stringify_bool true = Some "true" ∧ "true" ≠ "" ∧
  parse_bool "true" = Some true ∧
  roomy ∅ (StorageService.full_key "todos" "dark") "true" = true ∧
  StorageService.load parse_bool "todos" "dark" false
    (StorageService.save stringify_bool roomy "todos" "dark" true ∅) = true.
Proof.
  split_and!; [reflexivity | discriminate | reflexivity | reflexivity |].
  apply (save_then_load stringify_bool parse_bool roomy "todos"
           "dark" true false "true" ∅); [reflexivity | discriminate | reflexivity..].
Defined.

Lemma other_keys_untouched_witness :
  "light" ≠ "dark" ∧
  StorageService.load parse_bool "todos" "light" false
    (StorageService.save stringify_bool roomy "todos" "dark" true ∅)
  = StorageService.load parse_bool "todos" "light" false ∅ ∧
  StorageService.load parse_bool "todos" "light" false
    (StorageService.remove "todos" "dark" ∅)
  = StorageService.load parse_bool "todos" "light" false ∅ ∧
  StorageService.load parse_bool "todos" "dark" false
    (StorageService.remove "todos" "dark" ∅) = false.
Proof.
  assert (Hne : "light" ≠ "dark") by discriminate.
  split; [exact Hne |].
  exact (other_keys_untouched stringify_bool parse_bool roomy "todos"
           "dark" "light" true false ∅ Hne).
Defined.

Lemma clear_wipes_extensions_witness :
  String.prefix "todos" "todos2" = true ∧
  StorageService.load parse_bool "todos" "dark" false
    (StorageService.clear "todos" {[ "todos2_dark" := "true" ]}) = false ∧
  StorageService.load parse_bool "todos2" "dark" false
    (StorageService.clear "todos" {[ "todos2_dark" := "true" ]}) = false.
Proof.
  split; [reflexivity |].
  exact (clear_wipes_extensions parse_bool "todos" "todos2" "dark" false
           {[ "todos2_dark" := "true" ]} eq_refl).
Defined.

Lemma service_is_a_map_witness :
  agree parse_bool "todos" ∅ ∅ ∧
  agree parse_bool "todos"
    (StorageService.save stringify_bool roomy "todos" "dark" true ∅)
    (<["dark" := true]> ∅) ∧
  agree parse_bool "todos" (StorageService.remove "todos" "dark" ∅)
    (delete "dark" ∅) ∧
  agree parse_bool "todos" (StorageService.clear "todos" ∅) ∅.
Proof.
  assert (Hag : agree parse_bool "todos" ∅ ∅).
  { intros k. unfold StorageService.read. by rewrite !lookup_empty. }
  split; [exact Hag |].
  apply (service_is_a_map stringify_bool parse_bool roomy "todos"
           "dark" true "true" ∅ ∅ Hag); [reflexivity | discriminate | reflexivity..].
Defined.

(** ** The model on the service *)

(** X15. [TodoModel.save()] on a [StorageService]: when both writes go
    through and the two JSON texts parse back, [load('items', _)] gives
    the list and [load('nextId', _)] the counter the model had, whatever
    the defaults; and the [localStorage] agrees with the storage map the
    model's [save] is described with. *)
Theorem model_save_on_service (stringify : stored → option string)
    (parse : string → option stored)
    (accepts : gmap string string → string → string → bool)
    (storageKey vi vn : string) (dflt dflt' : stored)
    (s : State) (ls : gmap string string) :
  agree parse storageKey ls (storage s) →
  stringify (SItems (todos s)) = Some vi → vi ≠ "" →
  parse vi = Some (SItems (todos s)) →
  stringify (SNum (nextId s)) = Some vn → vn ≠ "" →
  parse vn = Some (SNum (nextId s)) →
  accepts ls (StorageService.full_key storageKey "items") vi = true →
  accepts (<[StorageService.full_key storageKey "items" := vi]> ls)
          (StorageService.full_key storageKey "nextId") vn = true →
  let ls' := save_through stringify accepts storageKey s ls in
  StorageService.load parse storageKey "items" dflt ls' = SItems (todos s) ∧
  StorageService.load parse storageKey "nextId" dflt' ls' = SNum (nextId s) ∧
  agree parse storageKey ls' (storage (save s)).
Proof.
  intros Hag Hvi Hnei Hpi Hvn Hnen Hpn Hacci Haccn ls'.
  assert (Hls1 : StorageService.save stringify accepts storageKey "items"
                   (SItems (todos s)) ls
                 = <[StorageService.full_key storageKey "items" := vi]> ls).
  { unfold StorageService.save. by rewrite Hvi, Hacci. }
  assert (Hag1 : agree parse storageKey
            (StorageService.save stringify accepts storageKey "items"
               (SItems (todos s)) ls)
            (<["items" := SItems (todos s)]> (storage s))).
  { by apply (service_is_a_map stringify parse accepts storageKey
                "items" _ vi ls (storage s)). }
  assert (Hag2 : agree parse storageKey ls' (storage (save s))).
  { subst ls'. unfold save_through.
    apply (service_is_a_map stringify parse accepts storageKey
             "nextId" _ vn _ _ Hag1); [done | done | done |].
    by rewrite Hls1. }
  split_and!; [| | exact Hag2].
  - rewrite load_read, <- (Hag2 "items"). simpl.
    rewrite lookup_insert_ne by done. by rewrite lookup_insert_eq.
  - rewrite load_read, <- (Hag2 "nextId"). simpl.
    by rewrite lookup_insert_eq.
Qed.

Lemma model_save_on_service_witness :
  agree parse_fresh "todos" ∅ (storage fresh) ∧
  let ls' := save_through stringify_fresh roomy "todos" fresh ∅ in
  StorageService.load parse_fresh "todos" "items" (SNum 0) ls'
    = SItems (todos fresh) ∧
  StorageService.load parse_fresh "todos" "nextId" (SNum 0) ls'
    = SNum (nextId fresh) ∧
  agree parse_fresh "todos" ls' (storage (save fresh)).
Proof.
  assert (Hag : agree parse_fresh "todos" ∅ (storage fresh)).
  { intros k. unfold StorageService.read. simpl. by rewrite !lookup_empty. }
  split; [exact Hag |].
  apply (model_save_on_service stringify_fresh parse_fresh roomy "todos"
           "[]" "1" (SNum 0) (SNum 0) fresh ∅ Hag);
    [reflexivity | discriminate | reflexivity
    | reflexivity | discriminate | reflexivity | reflexivity | reflexivity].
Defined.

(** ** The model's saves on the service *)

Lemma digits_round_trip d :
  ∃ v, stringify_digits d = Some v ∧ v ≠ "" ∧ parse_digits v = Some d.
Proof.
  assert (Hnum : ∀ p, number (digits p) = Some p).
  { induction p as [p IH | p IH |]; simpl; [| | done];
      change ("" +:+ digits p) with (digits p); by rewrite IH. }
  exists (digits (encode d)). split_and!; [done | by destruct (encode d) |].
  unfold parse_digits. rewrite Hnum. apply decode_encode.
Qed.

Lemma write_through_quiet stringify accepts sk before after ls :
  trace after = trace before →
  write_through stringify accepts sk before after ls = ls.
Proof. intros Htr. unfold write_through. by rewrite Htr, drop_all. Qed.

Lemma foldl_calls stringify accepts sk (l : list nat) (ls : gmap string string) :
  foldl (λ ls e,
           match e with
           | Saved key d => StorageService.save stringify accepts sk key d ls
           | Called _ => ls
           end) ls (Called <$> l) = ls.
Proof. induction l as [| x l IH]; simpl; [done | apply IH]. Qed.

Lemma write_through_loud stringify accepts sk before after ls :
  trace after = trace before ++ effects after →
  write_through stringify accepts sk before after ls
  = save_through stringify accepts sk after ls.
Proof.
  intros Htr. unfold write_through, save_through.
  rewrite Htr, drop_app_length. unfold effects.
  rewrite foldl_app. simpl. apply foldl_calls.
Qed.

Lemma TodoModel_on_saved stringify parse accepts sk s ls :
  (∀ d, ∃ v, stringify d = Some v ∧ v ≠ "" ∧ parse v = Some d) →
  (∀ ls key v, accepts ls key v = true) →
  TodoModel_on parse sk (save_through stringify accepts sk s ls)
  = Some (todos s, nextId s).
Proof.
  intros Hcodec Hroom. unfold TodoModel_on, save_through.
  destruct (Hcodec (SItems (todos s))) as (vi & Hvi & Hnei & Hpi).
  destruct (Hcodec (SNum (nextId s))) as (vn & Hvn & Hnen & Hpn).
  rewrite !load_read.
  rewrite (read_save_other stringify parse accepts sk "nextId" "items") by done.
  rewrite (read_save_same stringify parse accepts sk "items" _ vi) by done.
  rewrite (read_save_same stringify parse accepts sk "nextId" _ vn) by done.
  rewrite !bool_decide_eq_false_2 by done.
  by rewrite Hpi, Hpn.
Qed.

Lemma reloadable_step stringify parse accepts sk o s ls :
  (∀ d, ∃ v, stringify d = Some v ∧ v ≠ "" ∧ parse v = Some d) →
  (∀ ls key v, accepts ls key v = true) →
  TodoModel_on parse sk ls = Some (todos s, nextId s) →
  TodoModel_on parse sk (step_on stringify accepts sk o (s, ls)).2
  = Some (todos (step_on stringify accepts sk o (s, ls)).1,
          nextId (step_on stringify accepts sk o (s, ls)).1).
Proof.
  intros Hcodec Hroom Hnew. unfold step_on. simpl.
  destruct (step_quiet_or_loud o s) as [Hq | Hl].
  - destruct Hq as (Ht & Hn & _ & Htr).
    by rewrite (write_through_quiet _ _ _ _ _ _ Htr), Ht, Hn.
  - destruct Hl as (_ & Htr & _).
    rewrite (write_through_loud _ _ _ _ _ _ Htr).
    by apply (TodoModel_on_saved stringify parse accepts).
Qed.

(** X2. On a [StorageService] whose [localStorage] takes every write
    and whose JSON texts are never empty and parse back to what was
    written: whatever calls are made on a model that started with what
    the service loads, a new [TodoModel] on the same service afterwards
    starts with the same list and the same counter. *)
Theorem reload_gives_same_store (stringify : stored → option string)
    (parse : string → option stored)
    (accepts : gmap string string → string → string → bool)
    (storageKey : string) (s0 : State) (ls0 : gmap string string)
    (ops : list op) :
  (∀ d, ∃ v, stringify d = Some v ∧ v ≠ "" ∧ parse v = Some d) →
  (∀ ls key v, accepts ls key v = true) →
  TodoModel_on parse storageKey ls0 = Some (todos s0, nextId s0) →
  let w := run_on stringify accepts storageKey ops (s0, ls0) in
  TodoModel_on parse storageKey w.2 = Some (todos w.1, nextId w.1).
Proof.
  intros Hcodec Hroom Hnew. simpl.
  revert s0 ls0 Hnew. induction ops as [| o r IH]; intros s ls Hnew; [done |].
  cbn [run_on]. apply IH. by apply reloadable_step.
Qed.

Lemma reload_gives_same_store_witness :
  (∀ d, ∃ v, stringify_digits d = Some v ∧ v ≠ "" ∧ parse_digits v = Some d) ∧
  (∀ ls key v, roomy ls key v = true) ∧
  TodoModel_on parse_digits "todos" ∅ = Some (todos fresh, nextId fresh) ∧
  let w := run_on stringify_digits roomy "todos"
             [Subscribe 0%nat;
              AddTodo (VStr (js "A")) (js "t0");
              AddTodo (VStr (js "B")) (js "t1");
              ToggleComplete (VNum 2);
              DeleteTodo (VNum 1);
              AddTodo (VStr (js " ")) (js "t2")] (fresh, ∅) in
  TodoModel_on parse_digits "todos" w.2 = Some (todos w.1, nextId w.1).
Proof.
  assert (Hroom : ∀ ls key v, roomy ls key v = true) by reflexivity.
  assert (Hnew : TodoModel_on parse_digits "todos" ∅
                 = Some (todos fresh, nextId fresh)) by reflexivity.
  split_and!; [exact digits_round_trip | exact Hroom | exact Hnew |].
  exact (reload_gives_same_store stringify_digits parse_digits roomy "todos"
           fresh ∅ _ digits_round_trip Hroom Hnew).
Defined.

(** * The components *)

(** ** The copy of the list the application shows *)

Lemma listeners_step o s :
  (∀ l, o ≠ Subscribe l) → listeners (state_of (step o s)) = listeners s.
Proof.
  intros Hns. destruct o; simpl; try done.
  - by destruct (Hns l).
  - unfold addTodo. destruct (truthy txt); simpl; [| done].
    destruct (call_trim txt); simpl; [done |]. by case_bool_decide.
  - unfold toggleComplete. by destruct (list_find _ _) as [[??] |].
  - unfold updateTodo. destruct (list_find _ _) as [[??] |]; [| done].
    destruct (truthy newText); simpl; [| done].
    destruct (call_trim newText); simpl; [done |]. by case_bool_decide.
Qed.

Lemma deliver_quiet before after shown :
  trace after = trace before → TodoApp.deliver before after shown = shown.
Proof.
  intros Htr. unfold TodoApp.deliver. by rewrite Htr, drop_all.
Qed.

Lemma deliver_loud before after shown :
  trace after = trace before ++ effects after →
  listeners after = [TodoApp.app_listener] →
  TodoApp.deliver before after shown = todos after.
Proof.
  intros Htr Hli. unfold TodoApp.deliver.
  rewrite Htr, drop_app_length. unfold effects. by rewrite Hli.
Qed.

Lemma in_step_on_model o a :
  (∀ l, o ≠ Subscribe l) → in_step a → in_step (TodoApp.on_model (step o) a).
Proof.
  intros Hns [Hshown Hli]. unfold TodoApp.on_model.
  pose proof (listeners_step o (TodoApp.model a) Hns) as Hli'.
  rewrite Hli in Hli'. split; simpl; [| done].
  destruct (step_quiet_or_loud o (TodoApp.model a)) as [Hq | Hl].
  - destruct Hq as (Ht & _ & _ & Htr).
    by rewrite (deliver_quiet _ _ _ Htr), Ht.
  - destruct Hl as (_ & Htr & _).
    by rewrite (deliver_loud _ _ _ Htr Hli').
Qed.

Lemma in_step_handle e a : in_step a → in_step (TodoApp.handle e a).
Proof.
  intros Hin. destruct e; simpl.
  - by apply (in_step_on_model (AddTodo txt now)).
  - unfold TodoApp.handleToggleTodo.
    destruct (in_step_on_model (ToggleComplete idv) a) as [_ Hli]; done.
  - by apply (in_step_on_model (DeleteTodo idv)).
  - by apply (in_step_on_model (UpdateTodo idv txt)).
  - destruct confirmed; simpl; [| done].
    by apply (in_step_on_model ClearCompleted).
  - destruct confirmed; simpl; [| done].
    by apply (in_step_on_model ClearAll).
Qed.

Lemma in_step_handle_all es a : in_step a → in_step (TodoApp.handle_all es a).
Proof.
  revert a. induction es as [| e r IH]; intros a Hin; simpl; [done |].
  by apply IH, in_step_handle.
Qed.

Lemma in_step_constructor st a0 : TodoApp.constructor st = Some a0 → in_step a0.
Proof.
  unfold TodoApp.constructor. intros Hnew.
  destruct (TodoModel st) as [m |] eqn:Hm; [| done].
  injection Hnew as <-. split; simpl; [done |].
  unfold TodoModel in Hm.
  destruct (storage_load "items" st) as [[l | n] |];
    destruct (storage_load "nextId" st) as [[l' | n'] |];
    by simplify_eq.
Qed.

(** X16. After the constructor and any events handled, the list the
    application shows is the list of the model. *)
Theorem shown_list_is_model_list (st : gmap string stored)
    (a0 : TodoApp.App) (es : list TodoApp.event) :
  TodoApp.constructor st = Some a0 →
  let a := TodoApp.handle_all es a0 in
  TodoApp.todos a = todos (TodoApp.model a).
Proof.
  intros Hnew a.
  by destruct (in_step_handle_all es a0 (in_step_constructor _ _ Hnew)).
Qed.

(** X17. In every rendering after the constructor and any events
    handled, the total shown is the sum of the active and the completed
    count shown, and the Clear All button is disabled exactly when the
    model has no item. *)
Theorem shown_numbers_add_up (st : gmap string stored)
    (a0 : TodoApp.App) (es : list TodoApp.event) :
  TodoApp.constructor st = Some a0 →
  let a := TodoApp.handle_all es a0 in
  TodoApp.total a = (TodoApp.active a + TodoApp.completed_count a)%nat ∧
  (TodoApp.clear_all_disabled a = true ↔ todos (TodoApp.model a) = []).
Proof.
  intros Hnew a.
  destruct (in_step_handle_all es a0 (in_step_constructor _ _ Hnew))
    as [Hshown _].
  fold a in Hshown. split.
  - unfold TodoApp.total, TodoApp.active, TodoApp.completed_count.
    by rewrite Hshown, counts_total.
  - unfold TodoApp.clear_all_disabled. rewrite Hshown, bool_decide_eq_true.
    apply length_zero_iff_nil.
Qed.

Lemma filter_same {A} (P : A → Prop) `{!∀ x, Decision (P x)} (l : list A) :
  filter P l = l → Forall P l.
Proof.
  intros Heq. apply Forall_forall. intros x Hin.
  rewrite <- Heq in Hin. by apply list_elem_of_filter in Hin as [? _].
Qed.

Lemma completedCount_zero s :
  completedCount s = 0%nat ↔ Forall (λ t, completed t = false) (todos s).
Proof.
  unfold completedCount. split.
  - intros Hlen%length_zero_iff_nil. apply Forall_forall. intros t Hin.
    destruct (completed t) eqn:Hc; [| done].
    assert (Hf : t ∈ filter (λ t, completed t = true) (todos s))
      by by apply list_elem_of_filter.
    rewrite Hlen in Hf. by apply elem_of_nil in Hf.
  - intros Hall. rewrite filter_none; [done |].
    eapply Forall_impl; [exact Hall |]. simpl. intros t Ht. congruence.
Qed.

(** X18. The Clear Completed button is disabled exactly when a confirmed
    click on it would leave the list shown as it is. *)
Theorem clear_completed_button (st : gmap string stored)
    (a0 : TodoApp.App) (es : list TodoApp.event) :
  TodoApp.constructor st = Some a0 →
  let a := TodoApp.handle_all es a0 in
  TodoApp.clear_completed_disabled a = true ↔
  TodoApp.todos (TodoApp.handleClearCompleted true a) = TodoApp.todos a.
Proof.
  intros Hnew a.
  pose proof (in_step_handle_all es a0 (in_step_constructor _ _ Hnew)) as Hin.
  fold a in Hin.
  destruct (in_step_on_model ClearCompleted a) as [Hshown' _]; [done | done |].
  destruct Hin as [Hshown _].
  change (TodoApp.on_model (step ClearCompleted) a)
    with (TodoApp.handleClearCompleted true a) in Hshown'.
  rewrite Hshown', Hshown.
  unfold TodoApp.clear_completed_disabled.
  rewrite bool_decide_eq_true, completedCount_zero. simpl. split.
  - apply filter_all.
  - apply filter_same.
Qed.

(** ** The form *)

(** X19. The form dispatches [add-todo] exactly when the field holds
    something else than white space, which is exactly when the Add
    button is enabled.  The text dispatched is the field trimmed, it is
    not empty, and the field is emptied; a field of white space is
    left as it is. *)
Theorem form_submits_trimmed (f : TodoForm.Form) :
  (white (TodoForm.inputValue f) →
   TodoForm.handleSubmit f = (None, f) ∧ TodoForm.add_disabled f = true) ∧
  (¬ white (TodoForm.inputValue f) →
   TodoForm.handleSubmit f
   = (Some (trim (TodoForm.inputValue f)), TodoForm.set_inputValue [] f) ∧
   TodoForm.add_disabled f = false ∧
   trim (TodoForm.inputValue f) ≠ []).
Proof.
  unfold TodoForm.handleSubmit, TodoForm.add_disabled. split.
  - intros Hw%trim_white. by rewrite !bool_decide_eq_true_2.
  - intros Hnw. assert (Hne : trim (TodoForm.inputValue f) ≠ [])
      by by rewrite trim_white.
    by rewrite !bool_decide_eq_false_2.
Qed.

(** X20. What the form dispatches, the application adds as it is: after
    the constructor and any events, [handleAddTodo] on a text dispatched
    by [handleSubmit] puts one item at the end of the list shown, with
    exactly that text, not completed, and with the identifier the
    counter had. *)
Theorem submitted_text_is_added (st : gmap string stored)
    (a0 : TodoApp.App) (es : list TodoApp.event)
    (f : TodoForm.Form) (txt now : jsstring) :
  TodoApp.constructor st = Some a0 →
  (TodoForm.handleSubmit f).1 = Some txt →
  let a := TodoApp.handle_all es a0 in
  TodoApp.todos (TodoApp.handleAddTodo (VStr txt) now a)
  = TodoApp.todos a ++ [{| id := nextId (TodoApp.model a); text := txt;
                           completed := false; createdAt := now |}].
Proof.
  intros Hnew Hsub a.
  pose proof (in_step_handle_all es a0 (in_step_constructor _ _ Hnew)) as Hin.
  fold a in Hin.
  destruct (in_step_on_model (AddTodo (VStr txt) now) a) as [Hshown' _];
    [done | done |].
  destruct Hin as [Hshown _].
  change (TodoApp.on_model (step (AddTodo (VStr txt) now)) a)
    with (TodoApp.handleAddTodo (VStr txt) now a) in Hshown'.
  rewrite Hshown', Hshown.
  unfold TodoForm.handleSubmit in Hsub.
  case_bool_decide as Hnil; simpl in Hsub; [done |].
  injection Hsub as <-.
  assert (Hne : trim (trim (TodoForm.inputValue f)) ≠ [])
    by by rewrite trim_trim.
  unfold TodoApp.handleAddTodo, TodoApp.on_model. simpl.
  unfold addTodo. rewrite (trim_nonempty _ Hne). simpl.
  rewrite bool_decide_eq_false_2 by done. simpl.
  by rewrite trim_trim.
Qed.

(** X21. A dictated text goes the same way: after the [result] of the
    speech recognition, a submit dispatches the transcript trimmed,
    unless the transcript is white space only, in which case nothing is
    dispatched. *)
Theorem dictated_text_is_submitted (transcript : jsstring) (f : TodoForm.Form) :
  (TodoForm.handleSubmit (TodoForm.on_result transcript f)).1
  = if bool_decide (trim transcript = []) then None
    else Some (trim transcript).
Proof.
  unfold TodoForm.handleSubmit, TodoForm.on_result. simpl.
  rewrite trim_trim. by case_bool_decide.
Qed.

(** ** One item *)

(** X22. The item dispatches [update-todo] exactly when the model will
    take the text: with a text typed that is not white space only, the
    event carries the identifier and the text as typed, editing ends,
    and [updateTodo] on that event gives the item the text trimmed; with
    white space only, nothing is dispatched and the item stays in
    editing. *)
Theorem item_save_updates (it : TodoItem.Item) (s : State)
    (l1 l2 : list Todo) :
  todos s = l1 ++ TodoItem.todo it :: l2 →
  Forall (λ u, ¬ has_id (VNum (id (TodoItem.todo it))) u) l1 →
  (¬ white (TodoItem.editValue it) →
   ∃ it' s',
     TodoItem.handleSave it
     = (Some (id (TodoItem.todo it), TodoItem.editValue it), it') ∧
     TodoItem.isEditing it' = false ∧
     updateTodo (VNum (id (TodoItem.todo it)))
                (VStr (TodoItem.editValue it)) s = Returned s' ∧
     todos s' = l1 ++ set_text (trim (TodoItem.editValue it))
                               (TodoItem.todo it) :: l2) ∧
  (white (TodoItem.editValue it) → TodoItem.handleSave it = (None, it)).
Proof.
  intros Hl Hl1. unfold TodoItem.handleSave. split.
  - intros Hnw. assert (Hne : trim (TodoItem.editValue it) ≠ [])
      by by rewrite trim_white.
    rewrite bool_decide_eq_false_2 by done.
    do 2 eexists. split_and!; [reflexivity | done | |].
    + unfold updateTodo.
      rewrite Hl, (find_at_split _ _ _ _ Hl1 eq_refl).
      rewrite (trim_nonempty _ Hne). simpl.
      by rewrite bool_decide_eq_false_2 by done.
    + simpl. apply insert_split.
  - intros Hw%trim_white. by rewrite bool_decide_eq_true_2.
Qed.

(** X23. Opening an item for editing and saving at once changes nothing
    in the list, when the text of the item is one the model keeps
    (trimmed and not empty): the event carries the text of the item, and
    [updateTodo] writes the same text back; the model saves and
    notifies all the same. *)
Theorem edit_and_save_keeps_list (it : TodoItem.Item) (s : State)
    (l1 l2 : list Todo) :
  text_ok (TodoItem.todo it) →
  todos s = l1 ++ TodoItem.todo it :: l2 →
  Forall (λ u, ¬ has_id (VNum (id (TodoItem.todo it))) u) l1 →
  ∃ it' s',
    TodoItem.handleSave (TodoItem.handleEdit it)
    = (Some (id (TodoItem.todo it), text (TodoItem.todo it)), it') ∧
    updateTodo (VNum (id (TodoItem.todo it)))
               (VStr (text (TodoItem.todo it))) s = Returned s' ∧
    todos s' = todos s ∧
    trace s' = trace s ++ effects s'.
Proof.
  intros [Hne Htrim] Hl Hl1.
  assert (Hne' : trim (text (TodoItem.todo it)) ≠ []) by by rewrite Htrim.
  do 2 eexists. split_and!.
  - unfold TodoItem.handleSave, TodoItem.handleEdit. simpl.
    by rewrite bool_decide_eq_false_2 by done.
  - unfold updateTodo.
    rewrite Hl, (find_at_split _ _ _ _ Hl1 eq_refl).
    rewrite (trim_nonempty _ Hne'). simpl.
    by rewrite bool_decide_eq_false_2 by done.
  - simpl. rewrite insert_split, Hl, Htrim.
    by destruct (TodoItem.todo it).
  - exact (trace_effects _).
Qed.

(** ** The properties above at work *)

Lemma shown_list_is_model_list_witness :
  TodoApp.constructor ∅ = Some fresh_app ∧
  let a := TodoApp.handle_all
             [TodoApp.AddTodoEvent (VStr (js "A")) (js "t0");
              TodoApp.AddTodoEvent (VStr (js "B")) (js "t1");
              TodoApp.ToggleTodoEvent (VNum 1);
              TodoApp.UpdateTodoEvent (VNum 2) (VStr (js " "));
              TodoApp.ClearCompletedClick true;
              TodoApp.ClearAllClick false] fresh_app in
  TodoApp.todos a = todos (TodoApp.model a).
Proof.
  split; [reflexivity |].
  exact (shown_list_is_model_list ∅ fresh_app _ eq_refl).
Defined.

Lemma shown_numbers_add_up_witness :
  TodoApp.constructor ∅ = Some fresh_app ∧
  let a := TodoApp.handle_all
             [TodoApp.AddTodoEvent (VStr (js "A")) (js "t0");
              TodoApp.AddTodoEvent (VStr (js "B")) (js "t1");
              TodoApp.ToggleTodoEvent (VNum 2)] fresh_app in
  TodoApp.total a = (TodoApp.active a + TodoApp.completed_count a)%nat ∧
  (TodoApp.clear_all_disabled a = true ↔ todos (TodoApp.model a) = []).
Proof.
  split; [reflexivity |].
  exact (shown_numbers_add_up ∅ fresh_app _ eq_refl).
Defined.

Lemma clear_completed_button_witness :
  TodoApp.constructor ∅ = Some fresh_app ∧
  let a := TodoApp.handle_all
             [TodoApp.AddTodoEvent (VStr (js "A")) (js "t0");
              TodoApp.ToggleTodoEvent (VNum 1)] fresh_app in
  TodoApp.clear_completed_disabled a = true ↔
  TodoApp.todos (TodoApp.handleClearCompleted true a) = TodoApp.todos a.
Proof.
  split; [reflexivity |].
  exact (clear_completed_button ∅ fresh_app _ eq_refl).
Defined.

Lemma submitted_text_is_added_witness :
  TodoApp.constructor ∅ = Some fresh_app ∧
  (TodoForm.handleSubmit
     {| TodoForm.inputValue := js "  Buy milk ";
        TodoForm.recognition := false;
        TodoForm.listening := false |}).1 = Some (js "Buy milk") ∧
  let a := TodoApp.handle_all
             [TodoApp.AddTodoEvent (VStr (js "A")) (js "t0")] fresh_app in
  TodoApp.todos (TodoApp.handleAddTodo (VStr (js "Buy milk")) (js "t1") a)
  = TodoApp.todos a ++ [{| id := nextId (TodoApp.model a);
                           text := js "Buy milk";
                           completed := false; createdAt := js "t1" |}].
Proof.
  split_and!; [reflexivity | reflexivity |].
  exact (submitted_text_is_added ∅ fresh_app _
           {| TodoForm.inputValue := js "  Buy milk ";
              TodoForm.recognition := false;
              TodoForm.listening := false |}
           (js "Buy milk") (js "t1") eq_refl eq_refl).
Defined.

Lemma item_save_updates_witness :
  todos buy_milk = [] ++ TodoItem.todo (milk_item (js " Buy bread ")) :: [] ∧
  (¬ white (js " Buy bread ")) ∧
  ∃ it' s',
    TodoItem.handleSave (milk_item (js " Buy bread "))
    = (Some (1, js " Buy bread "), it') ∧
    TodoItem.isEditing it' = false ∧
    updateTodo (VNum 1) (VStr (js " Buy bread ")) buy_milk = Returned s' ∧
    todos s' = [] ++ set_text (trim (js " Buy bread "))
                       (TodoItem.todo (milk_item (js " Buy bread "))) :: [].
Proof.
  assert (Hnw : ¬ white (js " Buy bread ")).
  { intros Hw%trim_white. vm_compute in Hw. discriminate Hw. }
  split_and!; [reflexivity | exact Hnw |].
  refine (proj1 (item_save_updates (milk_item (js " Buy bread ")) buy_milk
                   [] [] eq_refl _) Hnw).
  constructor.
Defined.

Lemma edit_and_save_keeps_list_witness :
  text_ok (TodoItem.todo (milk_item [])) ∧
  todos buy_milk = [] ++ TodoItem.todo (milk_item []) :: [] ∧
  ∃ it' s',
    TodoItem.handleSave (TodoItem.handleEdit (milk_item []))
    = (Some (1, js "Buy milk"), it') ∧
    updateTodo (VNum 1) (VStr (js "Buy milk")) buy_milk = Returned s' ∧
    todos s' = todos buy_milk ∧
    trace s' = trace buy_milk ++ effects s'.
Proof.
  assert (Hok : text_ok (TodoItem.todo (milk_item []))).
  { split; [discriminate | reflexivity]. }
  split_and!; [exact Hok | reflexivity |].
  refine (edit_and_save_keeps_list (milk_item []) buy_milk [] [] Hok eq_refl _).
  constructor.
Defined.
